(** * A kinematic character controller: movement, collision, ground check,
      spawn search and follow camera.

    The development embeds the game script (configuration, player and key
    state, the input handlers, [findStartPosition], [checkCollision],
    [checkGround], [updatePlayer], [updateCamera], [animate]) and proves
    properties of it.

    Numbers.  The script computes on JavaScript numbers.  They are modelled
    here as real numbers: arithmetic is exact, there is no rounding, no NaN
    and no infinity.  Comparisons that the script stores or branches on are
    booleans obtained from the decidable order of the reals.

    Geometry.  The scene meshes and [THREE.Raycaster] belong to the rendering
    library and to the loaded asset, not to the script.  A ray query is a
    function from the ray's origin, direction and [far] bound to the list of
    intersections, nearest first; the script is modelled over an arbitrary
    such function, and concrete scenes made of axis-aligned planes are
    provided for the scenarios. *)

From Stdlib Require Import Reals Lra Lia List Bool Arith.
Import ListNotations.

Local Open Scope R_scope.

(** ** JavaScript number comparisons as booleans *)

Module JS.

Definition lt (a b : R) : bool := if Rlt_dec a b then true else false.
Definition le (a b : R) : bool := if Rle_dec a b then true else false.
Definition gt (a b : R) : bool := lt b a.

(** [a || b] on numbers: [b] when [a] is zero, [a] otherwise. *)
Definition or_num (a b : R) : R := if Req_dec_T a 0 then b else a.

(** [Math.max] and [Math.min]. *)
Definition max (a b : R) : R := Rmax a b.
Definition min (a b : R) : R := Rmin a b.

End JS.

(** ** The part of three.js the script uses *)

Module THREE.

Record Vector3 : Type := mkVector3 { x : R; y : R; z : R }.

Definition add (a b : Vector3) : Vector3 :=
  mkVector3 (x a + x b) (y a + y b) (z a + z b).

Definition sub (a b : Vector3) : Vector3 :=
  mkVector3 (x a - x b) (y a - y b) (z a - z b).

Definition multiplyScalar (a : Vector3) (s : R) : Vector3 :=
  mkVector3 (x a * s) (y a * s) (z a * s).

Definition divideScalar (a : Vector3) (s : R) : Vector3 :=
  multiplyScalar a (1 / s).

Definition lengthSq (a : Vector3) : R := x a * x a + y a * y a + z a * z a.

Definition length (a : Vector3) : R := sqrt (lengthSq a).

(** [normalize()] divides by [this.length() || 1]. *)
Definition normalize (a : Vector3) : Vector3 :=
  divideScalar a (JS.or_num (length a) 1).

Definition distanceToSquared (a b : Vector3) : R :=
  let dx := x a - x b in
  let dy := y a - y b in
  let dz := z a - z b in
  dx * dx + dy * dy + dz * dz.

Definition distanceTo (a b : Vector3) : R := sqrt (distanceToSquared a b).

Record Quaternion : Type := mkQuaternion { qx : R; qy : R; qz : R; qw : R }.

Definition setFromAxisAngle (axis : Vector3) (angle : R) : Quaternion :=
  let halfAngle := angle / 2 in
  let s := sin halfAngle in
  mkQuaternion (x axis * s) (y axis * s) (z axis * s) (cos halfAngle).

Definition applyQuaternion (v : Vector3) (q : Quaternion) : Vector3 :=
  let tx := 2 * (qy q * z v - qz q * y v) in
  let ty := 2 * (qz q * x v - qx q * z v) in
  let tz := 2 * (qx q * y v - qy q * x v) in
  mkVector3 (x v + qw q * tx + qy q * tz - qz q * ty)
            (y v + qw q * ty + qz q * tx - qx q * tz)
            (z v + qw q * tz + qx q * ty - qy q * tx).

Definition applyAxisAngle (v axis : Vector3) (angle : R) : Vector3 :=
  applyQuaternion v (setFromAxisAngle axis angle).

(** An entry of the array returned by [Raycaster.intersectObjects]. *)
Record Intersection : Type := mkIntersection { distance : R; point : Vector3 }.

(** [Raycaster.far]: a bound, or the default [Infinity]. *)
Inductive Far : Type :=
| Bounded (d : R)
| Infinity.

(** A ray query against a fixed set of meshes: origin, direction, [far]. *)
Definition RayQuery : Type := Vector3 -> Vector3 -> Far -> list Intersection.

End THREE.

Import THREE.

(** ** Game configuration *)

Module CONFIG.
Definition moveSpeed : R := 2.5.
Definition jumpForce : R := 12.
Definition gravity : R := 40.
Definition cameraDistance : R := 3.
Definition cameraHeight : R := 2.
Definition cameraSensitivity : R := 0.002.
Definition characterHeight : R := 1.0.
Definition collisionRadius : R := 0.3.
End CONFIG.

(** ** Player, key and world state *)

Module Player.
Record t : Type := mk {
  position : Vector3;
  velocity : Vector3;
  rotation : R;
  pitch : R;
  isGrounded : bool;
  isMoving : bool;
  hasJumped : bool
}.

Definition set_position (p : t) (v : Vector3) : t :=
  mk v (velocity p) (rotation p) (pitch p) (isGrounded p) (isMoving p) (hasJumped p).
Definition set_velocity (p : t) (v : Vector3) : t :=
  mk (position p) v (rotation p) (pitch p) (isGrounded p) (isMoving p) (hasJumped p).
Definition set_rotation (p : t) (r : R) : t :=
  mk (position p) (velocity p) r (pitch p) (isGrounded p) (isMoving p) (hasJumped p).
Definition set_pitch (p : t) (r : R) : t :=
  mk (position p) (velocity p) (rotation p) r (isGrounded p) (isMoving p) (hasJumped p).
Definition set_isGrounded (p : t) (b : bool) : t :=
  mk (position p) (velocity p) (rotation p) (pitch p) b (isMoving p) (hasJumped p).
Definition set_isMoving (p : t) (b : bool) : t :=
  mk (position p) (velocity p) (rotation p) (pitch p) (isGrounded p) b (hasJumped p).

(** The initial value of the global [player]. *)
Definition initial : t :=
  mk (mkVector3 0 0 0) (mkVector3 0 0 0) 0 0 true false false.
End Player.

Module Keys.
Record t : Type := mk {
  forward : bool;
  backward : bool;
  left : bool;
  right : bool;
  jump : bool
}.

Definition set_forward (k : t) (b : bool) : t := mk b (backward k) (left k) (right k) (jump k).
Definition set_backward (k : t) (b : bool) : t := mk (forward k) b (left k) (right k) (jump k).
Definition set_left (k : t) (b : bool) : t := mk (forward k) (backward k) b (right k) (jump k).
Definition set_right (k : t) (b : bool) : t := mk (forward k) (backward k) (left k) b (jump k).
Definition set_jump (k : t) (b : bool) : t := mk (forward k) (backward k) (left k) (right k) b.

(** The initial value of the global [keys]. *)
Definition initial : t := mk false false false false false.
End Keys.

(** Vector component updates ([v.x = a], [v.y += a], ...). *)
Definition set_x (v : Vector3) (a : R) : Vector3 := mkVector3 a (y v) (z v).
Definition set_y (v : Vector3) (a : R) : Vector3 := mkVector3 (x v) a (z v).
Definition set_z (v : Vector3) (a : R) : Vector3 := mkVector3 (x v) (y v) a.

(** The script's globals that the simulation reads and writes: [player],
    [keys], [camera.position], and whether [snoopy] has been loaded. *)
Record World : Type := mkWorld {
  player : Player.t;
  keys : Keys.t;
  camera_position : Vector3;
  snoopy : bool
}.

Definition set_player (w : World) (p : Player.t) : World :=
  mkWorld p (keys w) (camera_position w) (snoopy w).
Definition set_keys (w : World) (k : Keys.t) : World :=
  mkWorld (player w) k (camera_position w) (snoopy w).
Definition set_camera_position (w : World) (c : Vector3) : World :=
  mkWorld (player w) (keys w) c (snoopy w).

Section Game.

(** [raycaster.intersectObjects(collisionObjects, true)] for the loaded
    scene, as a function of the ray set on the raycaster. *)
Variable intersectObjects : RayQuery.

(** *** [findStartPosition] *)

Definition testPositions : list Vector3 :=
  [ mkVector3 0 5 0; mkVector3 0 2 0; mkVector3 0 0 0; mkVector3 0 (-5) 0 ].

(** The [for (const testPos of testPositions)] loop; [Some] is the early
    [return] with the position found. *)
Fixpoint findStartPosition_loop (tests : list Vector3) : option Vector3 :=
  match tests with
  | [] => None
  | testPos :: rest =>
      match intersectObjects testPos (mkVector3 0 (-1) 0) Infinity with
      | hit :: _ => Some (set_y (point hit) (y (point hit) + 0.1))
      | [] => findStartPosition_loop rest
      end
  end.

Definition findStartPosition (p : Player.t) : Player.t :=
  match findStartPosition_loop testPositions with
  | Some pos => Player.set_position p pos
  | None =>
      match intersectObjects (mkVector3 0 (-50) 0) (mkVector3 0 1 0) Infinity with
      | hit :: _ => Player.set_position p (set_y (point hit) (y (point hit) + 0.1))
      | [] => Player.set_position p (mkVector3 0 0 0)
      end
  end.

(** *** [checkCollision] *)

Definition directions : list Vector3 :=
  [ mkVector3 1 0 0; mkVector3 (-1) 0 0; mkVector3 0 0 1; mkVector3 0 0 (-1) ].

(** One iteration of the loop over [directions]: the body reads and
    updates the same [newPosition] object. *)
Definition checkCollision_probe (newPosition dir : Vector3) : Vector3 :=
  match intersectObjects
          (mkVector3 (x newPosition)
                     (y newPosition + CONFIG.characterHeight / 2)
                     (z newPosition))
          dir (Bounded CONFIG.collisionRadius) with
  | hit :: _ =>
      let pushback := multiplyScalar dir (- (CONFIG.collisionRadius - distance hit)) in
      add newPosition pushback
  | [] => newPosition
  end.

Definition checkCollision (newPosition : Vector3) : Vector3 :=
  fold_left checkCollision_probe directions newPosition.

(** *** [checkGround] *)

Definition checkGround (p : Player.t) : Player.t :=
  let pos := Player.position p in
  let intersects :=
    intersectObjects (mkVector3 (x pos) (y pos + 0.5) (z pos))
                     (mkVector3 0 (-1) 0) (Bounded 1.0) in
  let fallthrough :=
    if JS.gt (y (Player.velocity p)) 0 || Nat.eqb (List.length intersects) 0
    then Player.set_isGrounded p false
    else p in
  match intersects with
  | hit :: _ =>
      let groundY := y (point hit) in
      let distanceToGround := y pos - groundY in
      if JS.le distanceToGround 0.15 && JS.le (y (Player.velocity p)) 0
      then
        Player.set_isGrounded
          (Player.set_velocity
             (Player.set_position p (set_y pos (groundY + 0.01)))
             (set_y (Player.velocity p) 0))
          true
      else fallthrough
  | [] => fallthrough
  end.

(** *** [updatePlayer] *)

(** The direction built from the four directional keys. *)
Definition moveDirection (k : Keys.t) : Vector3 :=
  let d0 := mkVector3 0 0 0 in
  let d1 := if Keys.forward k then set_z d0 (z d0 - 1) else d0 in
  let d2 := if Keys.backward k then set_z d1 (z d1 + 1) else d1 in
  let d3 := if Keys.left k then set_x d2 (x d2 - 1) else d2 in
  let d4 := if Keys.right k then set_x d3 (x d3 + 1) else d3 in
  d4.

(** Calls of [Vector3.normalize] made by a step, with the value of the
    receiver at the call.  It is the only operation of the step that divides
    by a computed quantity. *)
Inductive Call : Type :=
| Normalize (v : Vector3).

(** The divisor [normalize] uses on [v]. *)
Definition divisor (c : Call) : R :=
  match c with Normalize v => JS.or_num (length v) 1 end.

(** Lines 344-366: [isMoving], then the moving or the decelerating
    branch.  The second component lists the [normalize] calls made. *)
Definition updateVelocity (k : Keys.t) (p : Player.t) : Player.t * list Call :=
  let dir := moveDirection k in
  let p := Player.set_isMoving p (JS.gt (lengthSq dir) 0) in
  let vel := Player.velocity p in
  if Player.isMoving p then
    let dir' := applyAxisAngle (normalize dir) (mkVector3 0 1 0) (Player.rotation p) in
    (Player.set_velocity p
       (set_z (set_x vel (x dir' * CONFIG.moveSpeed)) (z dir' * CONFIG.moveSpeed)),
     [Normalize dir])
  else
    (Player.set_velocity p (set_z (set_x vel (x vel * 0.9)) (z vel * 0.9)), []).

(** Lines 369-373: the jump block. *)
Definition updateJump (w : World) : World :=
  if Keys.jump (keys w) && Player.isGrounded (player w) then
    let p := player w in
    let p := Player.set_velocity p (set_y (Player.velocity p) CONFIG.jumpForce) in
    let p := Player.set_isGrounded p false in
    set_keys (set_player w p) (Keys.set_jump (keys w) false)
  else w.

(** Lines 376-378: gravity. *)
Definition applyGravity (delta : R) (p : Player.t) : Player.t :=
  if negb (Player.isGrounded p) then
    let vel := Player.velocity p in
    Player.set_velocity p (set_y vel (y vel - CONFIG.gravity * delta))
  else p.

(** Lines 381-384: the position the step would move to. *)
Definition integrate (delta : R) (p : Player.t) : Vector3 :=
  let newPosition := Player.position p in
  let vel := Player.velocity p in
  mkVector3 (x newPosition + x vel * delta)
            (y newPosition + y vel * delta)
            (z newPosition + z vel * delta).

(** Lines 381-391: integrate, resolve collisions, check the ground. *)
Definition moveAndGround (delta : R) (p : Player.t) : Player.t :=
  let collisionChecked := checkCollision (integrate delta p) in
  checkGround (Player.set_position p collisionChecked).

(** Lines 394-397: the reset below the floor threshold. *)
Definition preventFalling (p : Player.t) : Player.t :=
  if JS.lt (y (Player.position p)) (-10) then
    Player.set_velocity (Player.set_position p (mkVector3 0 5 0)) (mkVector3 0 0 0)
  else p.

(** The state of the step just before the reset test of line 394. *)
Definition updatePlayer_beforeReset (delta : R) (w : World) : World * list Call :=
  let '(p, calls) := updateVelocity (keys w) (player w) in
  let w := updateJump (set_player w p) in
  let p := applyGravity delta (player w) in
  (set_player w (moveAndGround delta p), calls).

Definition updatePlayer_traced (delta : R) (w : World) : World * list Call :=
  let '(w, calls) := updatePlayer_beforeReset delta w in
  (set_player w (preventFalling (player w)), calls).

Definition updatePlayer (delta : R) (w : World) : World :=
  fst (updatePlayer_traced delta w).

(** *** [updateCamera] *)

Definition cameraOffset (p : Player.t) : Vector3 :=
  mkVector3 (sin (Player.rotation p) * CONFIG.cameraDistance)
            (CONFIG.cameraHeight + sin (Player.pitch p) * CONFIG.cameraDistance)
            (cos (Player.rotation p) * CONFIG.cameraDistance).

Definition desiredCameraPos (p : Player.t) : Vector3 :=
  add (Player.position p) (cameraOffset p).

Definition playerHead (p : Player.t) : Vector3 :=
  set_y (Player.position p) (y (Player.position p) + CONFIG.characterHeight).

Definition cameraDirection (p : Player.t) : Vector3 :=
  normalize (sub (desiredCameraPos p) (playerHead p)).

Definition cameraRayDistance (p : Player.t) : R :=
  distanceTo (playerHead p) (desiredCameraPos p).

(** The line-of-sight query of lines 450-453. *)
Definition cameraIntersects (p : Player.t) : list Intersection :=
  intersectObjects (playerHead p) (cameraDirection p) (Bounded (cameraRayDistance p)).

Definition updateCamera (w : World) : World :=
  if negb (snoopy w) then w
  else
    let p := player w in
    match cameraIntersects p with
    | hit :: _ =>
        let safeDistance := distance hit - 0.2 in
        if JS.gt safeDistance 0.5 then
          set_camera_position w
            (add (playerHead p) (multiplyScalar (cameraDirection p) safeDistance))
        else
          set_camera_position w (playerHead p)
    | [] => set_camera_position w (desiredCameraPos p)
    end.

(** *** Input handlers and the frame loop *)

Inductive KeyCode : Type := KeyW | KeyS | KeyA | KeyD | Space | OtherKey.

Definition keydown (code : KeyCode) (k : Keys.t) : Keys.t :=
  match code with
  | KeyW => Keys.set_forward k true
  | KeyS => Keys.set_backward k true
  | KeyA => Keys.set_left k true
  | KeyD => Keys.set_right k true
  | Space => Keys.set_jump k true
  | OtherKey => k
  end.

Definition keyup (code : KeyCode) (k : Keys.t) : Keys.t :=
  match code with
  | KeyW => Keys.set_forward k false
  | KeyS => Keys.set_backward k false
  | KeyA => Keys.set_left k false
  | KeyD => Keys.set_right k false
  | Space => Keys.set_jump k false
  | OtherKey => k
  end.

(** The [mousemove] listener; [locked] is
    [document.pointerLockElement === document.body] when it runs. *)
Definition mousemove (locked : bool) (movementX movementY : R) (p : Player.t) : Player.t :=
  if negb locked then p
  else
    let p := Player.set_rotation p (Player.rotation p - movementX * CONFIG.cameraSensitivity) in
    let p := Player.set_pitch p (Player.pitch p + movementY * CONFIG.cameraSensitivity) in
    Player.set_pitch p (JS.max (- PI / 3) (JS.min (PI / 3) (Player.pitch p))).

(** One run of [animate]; [clockDelta] is the value of
    [clock.getDelta()].  The mixer, the character mesh and the renderer do
    not feed back into the state modelled here. *)
Definition animate (locked : bool) (clockDelta : R) (w : World) : World :=
  let delta := JS.min clockDelta 0.1 in
  let w := if snoopy w && locked then updatePlayer delta w else w in
  updateCamera w.

(** What the host delivers to the script between and at frames. *)
Inductive Event : Type :=
| KeyDown (code : KeyCode)
| KeyUp (code : KeyCode)
| MouseMove (locked : bool) (movementX movementY : R)
| Frame (locked : bool) (clockDelta : R).

Definition handle (w : World) (e : Event) : World :=
  match e with
  | KeyDown code => set_keys w (keydown code (keys w))
  | KeyUp code => set_keys w (keyup code (keys w))
  | MouseMove locked mx my => set_player w (mousemove locked mx my (player w))
  | Frame locked clockDelta => animate locked clockDelta w
  end.

Definition run (w : World) (events : list Event) : World :=
  fold_left handle events w.

End Game.


(** ** Concrete scenes: axis-aligned planes

    A scene made of infinite planes, each orthogonal to one coordinate axis
    and visible from both sides.  The query reports, nearest first, the
    planes the ray meets within its bound.  Directions are unit vectors, as
    in every query the script makes, so the ray parameter is the distance. *)

Module Scene.

Inductive Axis : Type := AxisX | AxisY | AxisZ.

Definition coord (a : Axis) (v : Vector3) : R :=
  match a with
  | AxisX => x v
  | AxisY => y v
  | AxisZ => z v
  end.

(** The plane of the points whose [axis] coordinate is [offset]. *)
Record Plane : Type := mkPlane { axis : Axis; offset : R }.

Definition within (t : R) (far : Far) : bool :=
  match far with
  | Bounded d => JS.le t d
  | Infinity => true
  end.

Definition hitPlane (origin direction : Vector3) (far : Far) (pl : Plane)
  : option Intersection :=
  let dn := coord (axis pl) direction in
  if Req_dec_T dn 0 then None
  else
    let t := (offset pl - coord (axis pl) origin) / dn in
    if JS.le 0 t && within t far
    then Some (mkIntersection t (add origin (multiplyScalar direction t)))
    else None.

Fixpoint insertHit (h : Intersection) (l : list Intersection) : list Intersection :=
  match l with
  | [] => [h]
  | h' :: rest =>
      if JS.le (distance h) (distance h') then h :: l else h' :: insertHit h rest
  end.

Fixpoint hits (origin direction : Vector3) (far : Far) (planes : list Plane)
  : list Intersection :=
  match planes with
  | [] => []
  | pl :: rest =>
      match hitPlane origin direction far pl with
      | Some h => insertHit h (hits origin direction far rest)
      | None => hits origin direction far rest
      end
  end.

Definition intersectPlanes (planes : list Plane) : RayQuery :=
  fun origin direction far => hits origin direction far planes.

(** No geometry at all. *)
Definition empty : RayQuery := intersectPlanes [].

(** A single horizontal floor at height 0. *)
Definition floor : RayQuery := intersectPlanes [mkPlane AxisY 0].

(** Two floors, at heights 0 and 0.3. *)
Definition twoFloors : RayQuery := intersectPlanes [mkPlane AxisY 0; mkPlane AxisY 0.3].

(** Two facing walls, at x = 0.2 and x = -0.35. *)
Definition corridor : RayQuery := intersectPlanes [mkPlane AxisX 0.2; mkPlane AxisX (-0.35)].

(** A wall across the z axis at z = 1.5, half the camera distance behind a
    character at the origin that faces yaw 0. *)
Definition wallBehind : RayQuery := intersectPlanes [mkPlane AxisZ 1.5].

End Scene.

(** ** Definitions used to state the properties *)

(** The correction one probe contributes when cast from [from]: the ray
    starts at [from] raised by half the character height and is bounded by
    the collision radius; a hit pushes back against [dir] by
    [radius - hitDistance]. *)
Definition pushbackFrom (q : RayQuery) (from dir : Vector3) : Vector3 :=
  match q (mkVector3 (x from) (y from + 0.5) (z from)) dir (Bounded 0.3) with
  | hit :: _ => multiplyScalar dir (- (0.3 - distance hit))
  | [] => mkVector3 0 0 0
  end.

(** The penetration depth a probe reports when cast from [from]:
    [radius - hitDistance] on a hit, nothing otherwise. *)
Definition penetration (q : RayQuery) (from dir : Vector3) : R :=
  match q (mkVector3 (x from) (y from + 0.5) (z from)) dir (Bounded 0.3) with
  | hit :: _ => 0.3 - distance hit
  | [] => 0
  end.

(** The resolver as the design notes word it: four probes, all cast from
    the tentative position, their corrections added up. *)
Definition resolve_independent (q : RayQuery) (tentative : Vector3) : Vector3 :=
  fold_left (fun acc dir => add acc (pushbackFrom q tentative dir)) directions tentative.

(** The ground query of [checkGround] for a player state. *)
Definition groundHits (q : RayQuery) (p : Player.t) : list Intersection :=
  let pos := Player.position p in
  q (mkVector3 (x pos) (y pos + 0.5) (z pos)) (mkVector3 0 (-1) 0) (Bounded 1.0).

(** Whether [checkGround] snaps the player onto the nearest surface hit. *)
Definition snaps (q : RayQuery) (p : Player.t) : bool :=
  match groundHits q p with
  | hit :: _ =>
      JS.le (y (Player.position p) - y (point hit)) 0.15
      && JS.le (y (Player.velocity p)) 0
  | [] => false
  end.

(** A player at rest whose feet are 0.4 below height 0. *)
Definition sunk : Player.t :=
  Player.mk (mkVector3 0 (-0.4) 0) (mkVector3 0 0 0) 0 0 true false false.

(** A player at rest 0.1 above height 0. *)
Definition hovering : Player.t :=
  Player.mk (mkVector3 0 0.1 0) (mkVector3 0 0 0) 0 0 false false false.

(** No net directional input: the opposing keys of each pair are both set
    or both unset, so the direction built from them is zero. *)
Definition noNetInput (k : Keys.t) : Prop :=
  Keys.forward k = Keys.backward k /\ Keys.left k = Keys.right k.

(** Successive movement steps, one per elapsed time in [deltas]. *)
Definition steps (q : RayQuery) (deltas : list R) (w : World) : World :=
  fold_left (fun w delta => updatePlayer q delta w) deltas w.

(** The jump block of the step run by event [e] is entered: [e] is a
    frame that runs [updatePlayer] with the jump key set and the player
    grounded. *)
Definition jumpsAt (w : World) (e : Event) : bool :=
  match e with
  | Frame locked _ =>
      snoopy w && locked && (Keys.jump (keys w) && Player.isGrounded (player w))
  | _ => false
  end.

(** Event [e] takes the player from airborne to grounded. *)
Definition landsAt (q : RayQuery) (w : World) (e : Event) : bool :=
  negb (Player.isGrounded (player w)) && Player.isGrounded (player (handle q w e)).

(** The number of jump impulses, and of landings, along a run. *)
Fixpoint countJumps (q : RayQuery) (w : World) (events : list Event) : nat :=
  match events with
  | [] => 0
  | e :: rest => (if jumpsAt w e then 1 else 0) + countJumps q (handle q w e) rest
  end.

Fixpoint countLandings (q : RayQuery) (w : World) (events : list Event) : nat :=
  match events with
  | [] => 0
  | e :: rest => (if landsAt q w e then 1 else 0) + countLandings q (handle q w e) rest
  end.

(** A press (or an auto-repeat) of the jump key. *)
Definition isSpaceDown (e : Event) : bool :=
  match e with
  | KeyDown Space => true
  | _ => false
  end.

(** The look angle is within its clamp. *)
Definition pitchInRange (p : Player.t) : Prop :=
  - PI / 3 <= Player.pitch p <= PI / 3.

(** The globals as the script declares them, before anything is loaded. *)
Definition initialWorld : World :=
  mkWorld Player.initial Keys.initial (mkVector3 0 0 0) false.

(** The loaded character at the origin, facing yaw 0 with pitch 0. *)
Definition atOrigin : World :=
  mkWorld Player.initial Keys.initial (mkVector3 0 0 0) true.

(** The loaded character standing with the jump key down. *)
Definition standing : World :=
  mkWorld Player.initial (Keys.set_jump Keys.initial true) (mkVector3 0 0 0) true.

(** The loaded character sliding at the move speed along x, no key down. *)
Definition sliding : World :=
  mkWorld (Player.mk (mkVector3 0 0 0) (mkVector3 2.5 0 0) 0 0 true true false)
          Keys.initial (mkVector3 0 0 0) true.

(** The loaded character in free fall at y = -11. *)
Definition fallen : World :=
  mkWorld (Player.mk (mkVector3 0 (-11) 0) (mkVector3 0 0 0) 0 0 false false false)
          Keys.initial (mkVector3 0 0 0) true.

(** The horizontal speed: the length of the velocity's x-z part. *)
Definition horizontalSpeed (v : Vector3) : R := sqrt (x v * x v + z v * z v).

(** ** Basic facts *)

Lemma JS_lt_true (a b : R) : a < b -> JS.lt a b = true.
Proof. intros H; unfold JS.lt; destruct (Rlt_dec a b); [reflexivity | contradiction]. Qed.

Lemma JS_lt_false (a b : R) : b <= a -> JS.lt a b = false.
Proof. intros H; unfold JS.lt; destruct (Rlt_dec a b); [lra | reflexivity]. Qed.

Lemma JS_le_true (a b : R) : a <= b -> JS.le a b = true.
Proof. intros H; unfold JS.le; destruct (Rle_dec a b); [reflexivity | contradiction]. Qed.

Lemma JS_le_false (a b : R) : b < a -> JS.le a b = false.
Proof. intros H; unfold JS.le; destruct (Rle_dec a b); [lra | reflexivity]. Qed.

Lemma JS_gt_true (a b : R) : b < a -> JS.gt a b = true.
Proof. intros H; unfold JS.gt; now apply JS_lt_true. Qed.

Lemma JS_gt_false (a b : R) : a <= b -> JS.gt a b = false.
Proof. intros H; unfold JS.gt; now apply JS_lt_false. Qed.

Lemma JS_lt_iff (a b : R) : JS.lt a b = true <-> a < b.
Proof. unfold JS.lt; destruct (Rlt_dec a b); split; intros; (assumption || discriminate || reflexivity || contradiction). Qed.

Lemma JS_le_iff (a b : R) : JS.le a b = true <-> a <= b.
Proof. unfold JS.le; destruct (Rle_dec a b); split; intros; (assumption || discriminate || reflexivity || contradiction). Qed.

Lemma JS_gt_iff (a b : R) : JS.gt a b = true <-> b < a.
Proof. unfold JS.gt; apply JS_lt_iff. Qed.

Lemma vector3_eq (a b : Vector3) : x a = x b -> y a = y b -> z a = z b -> a = b.
Proof. destruct a, b; simpl; intros; subst; reflexivity. Qed.

(** Evaluate a query on a scene of planes at a concrete ray. *)
Ltac scene_step :=
  cbv beta iota zeta delta
    [penetration pushbackFrom Scene.corridor Scene.floor Scene.twoFloors Scene.empty
     Scene.intersectPlanes Scene.hits Scene.hitPlane Scene.coord Scene.axis
     Scene.offset Scene.within Scene.insertHit x y z distance point add
     multiplyScalar andb orb negb].

(** Decide one comparison on concrete numbers that stands in the goal. *)
Ltac js_compare1 :=
  match goal with
  | |- context [JS.le ?a ?b] =>
      first [ rewrite (JS_le_true a b) by lra | rewrite (JS_le_false a b) by lra ]
  | |- context [JS.lt ?a ?b] =>
      first [ rewrite (JS_lt_true a b) by lra | rewrite (JS_lt_false a b) by lra ]
  | |- context [JS.gt ?a ?b] =>
      first [ rewrite (JS_gt_true a b) by lra | rewrite (JS_gt_false a b) by lra ]
  | |- context [Req_dec_T ?a ?b] =>
      destruct (Req_dec_T a b); [ try lra | try lra ]
  end.

Ltac scene_eval := scene_step; repeat (js_compare1; scene_step).

(** ** The collision resolver *)

Section CollisionResolver.

Variable q : RayQuery.

Lemma checkCollision_probe_pushback (pos dir : Vector3) :
  checkCollision_probe q pos dir = add pos (pushbackFrom q pos dir).
Proof.
  unfold checkCollision_probe, pushbackFrom, CONFIG.characterHeight, CONFIG.collisionRadius.
  replace (1.0 / 2) with 0.5 by lra.
  destruct (q _ dir (Bounded 0.3)) as [|hit rest]; [|reflexivity].
  apply vector3_eq; simpl; lra.
Qed.

Lemma pushbackFrom_horizontal (pos dir : Vector3) :
  y dir = 0 -> y (pushbackFrom q pos dir) = 0.
Proof.
  intros Hdir; unfold pushbackFrom.
  destruct (q _ dir (Bounded 0.3)) as [|hit rest]; simpl; [reflexivity|].
  rewrite Hdir; lra.
Qed.

Lemma fold_probes_keep_y (dirs : list Vector3) :
  Forall (fun dir => y dir = 0) dirs ->
  forall pos, y (fold_left (checkCollision_probe q) dirs pos) = y pos.
Proof.
  induction 1 as [|dir dirs Hdir _ IH]; intros pos; simpl; [reflexivity|].
  rewrite IH, checkCollision_probe_pushback; simpl.
  rewrite pushbackFrom_horizontal by assumption; lra.
Qed.

Lemma directions_horizontal : Forall (fun dir => y dir = 0) directions.
Proof. unfold directions; repeat constructor. Qed.

(** C10: the collision resolver never changes the vertical coordinate:
    whatever the geometry and the tentative position, the corrected position
    has the y of the tentative one, every probe direction and so every
    pushback being horizontal. *)
Theorem checkCollision_keeps_y (newPosition : Vector3) :
  y (checkCollision q newPosition) = y newPosition
  /\ Forall (fun dir => forall pos, y (pushbackFrom q pos dir) = 0) directions.
Proof.
  split.
  - apply fold_probes_keep_y, directions_horizontal.
  - unfold directions; repeat constructor; intros pos;
      apply pushbackFrom_horizontal; reflexivity.
Qed.

Lemma pushbackFrom_penetration (from dir : Vector3) :
  pushbackFrom q from dir = multiplyScalar dir (- penetration q from dir).
Proof.
  unfold pushbackFrom, penetration.
  destruct (q _ dir (Bounded 0.3)) as [|hit rest]; [|reflexivity].
  apply vector3_eq; simpl; lra.
Qed.

(** C1, as the script has it: the four probes run in the order +X, -X, +Z,
    -Z; each is cast from the position as corrected by the probes before it
    (the first from the tentative position), raised by 0.5 and bounded by
    0.3; each hit pushes back against its direction by
    [radius - hitDistance]; the corrections add up. *)
Theorem checkCollision_sequential_probes (tentative : Vector3) :
  let c1 := pushbackFrom q tentative (mkVector3 1 0 0) in
  let p1 := add tentative c1 in
  let c2 := pushbackFrom q p1 (mkVector3 (-1) 0 0) in
  let p2 := add p1 c2 in
  let c3 := pushbackFrom q p2 (mkVector3 0 0 1) in
  let p3 := add p2 c3 in
  let c4 := pushbackFrom q p3 (mkVector3 0 0 (-1)) in
  checkCollision q tentative = add (add (add (add tentative c1) c2) c3) c4
  /\ x (checkCollision q tentative)
     = x tentative - penetration q tentative (mkVector3 1 0 0)
                   + penetration q p1 (mkVector3 (-1) 0 0)
  /\ z (checkCollision q tentative)
     = z tentative - penetration q p2 (mkVector3 0 0 1)
                   + penetration q p3 (mkVector3 0 0 (-1))
  /\ (forall from dir hit rest,
        q (mkVector3 (x from) (y from + 0.5) (z from)) dir (Bounded 0.3) = hit :: rest ->
        pushbackFrom q from dir = multiplyScalar dir (- (0.3 - distance hit)))
  /\ (forall from dir,
        q (mkVector3 (x from) (y from + 0.5) (z from)) dir (Bounded 0.3) = [] ->
        pushbackFrom q from dir = mkVector3 0 0 0).
Proof.
  intros c1 p1 c2 p2 c3 p3 c4.
  assert (Hfold : checkCollision q tentative = add (add (add (add tentative c1) c2) c3) c4).
  { unfold checkCollision, directions; simpl.
    rewrite !checkCollision_probe_pushback; reflexivity. }
  split; [exact Hfold|].
  split; [|split; [|split]].
  - rewrite Hfold; subst c1 c2 c3 c4.
    rewrite !pushbackFrom_penetration; simpl; fold p1; lra.
  - rewrite Hfold; subst c1 c2 c3 c4.
    rewrite !pushbackFrom_penetration; simpl; fold p1 p2 p3.
    unfold p3, p2. rewrite !pushbackFrom_penetration; simpl. fold p1 p2 p3. lra.
  - intros from dir hit rest H; unfold pushbackFrom; rewrite H; reflexivity.
  - intros from dir H; unfold pushbackFrom; rewrite H; reflexivity.
Qed.

End CollisionResolver.

Lemma checkCollision_corridor :
  checkCollision Scene.corridor (mkVector3 0 0 0) = mkVector3 (-0.05) 0 0.
Proof.
  unfold checkCollision, directions; cbn [fold_left].
  rewrite (checkCollision_probe_pushback _ (mkVector3 0 0 0)).
  assert (E1 : add (mkVector3 0 0 0)
                   (pushbackFrom Scene.corridor (mkVector3 0 0 0) (mkVector3 1 0 0))
               = mkVector3 (-0.1) 0 0)
    by (apply vector3_eq; scene_eval; try lra).
  rewrite E1, (checkCollision_probe_pushback _ (mkVector3 (-0.1) 0 0)).
  assert (E2 : add (mkVector3 (-0.1) 0 0)
                   (pushbackFrom Scene.corridor (mkVector3 (-0.1) 0 0) (mkVector3 (-1) 0 0))
               = mkVector3 (-0.05) 0 0)
    by (apply vector3_eq; scene_eval; try lra).
  rewrite E2, (checkCollision_probe_pushback _ (mkVector3 (-0.05) 0 0)).
  assert (E3 : add (mkVector3 (-0.05) 0 0)
                   (pushbackFrom Scene.corridor (mkVector3 (-0.05) 0 0) (mkVector3 0 0 1))
               = mkVector3 (-0.05) 0 0)
    by (apply vector3_eq; scene_eval; try lra).
  rewrite E3, (checkCollision_probe_pushback _ (mkVector3 (-0.05) 0 0)).
  apply vector3_eq; scene_eval; try lra.
Qed.

Lemma resolve_independent_corridor :
  resolve_independent Scene.corridor (mkVector3 0 0 0) = mkVector3 (-0.1) 0 0.
Proof.
  unfold resolve_independent, directions; cbn [fold_left].
  apply vector3_eq; scene_eval; try lra.
Qed.

(** C1, as worded, fails: between two walls at x = 0.2 and x = -0.35 the
    probe towards -X, cast from the position already pushed back by the +X
    probe, hits the second wall, which it would miss from the tentative
    position; the script's result differs from the sum of the corrections of
    four probes cast from the tentative position. *)
Lemma checkCollision_not_independent :
  checkCollision Scene.corridor (mkVector3 0 0 0)
  <> resolve_independent Scene.corridor (mkVector3 0 0 0).
Proof.
  rewrite checkCollision_corridor, resolve_independent_corridor.
  intros H; apply (f_equal x) in H; simpl in H; lra.
Qed.

(** The sequential reading applied to the corridor: +X reports a depth of
    0.1, then -X, cast from x = -0.1, a depth of 0.05. *)
Lemma checkCollision_sequential_probes_corridor :
  x (checkCollision Scene.corridor (mkVector3 0 0 0)) = 0 - 0.1 + 0.05.
Proof.
  destruct (checkCollision_sequential_probes Scene.corridor (mkVector3 0 0 0))
    as (_ & Hx & _).
  rewrite Hx.
  assert (E1 : add (mkVector3 0 0 0)
                   (pushbackFrom Scene.corridor (mkVector3 0 0 0) (mkVector3 1 0 0))
               = mkVector3 (-0.1) 0 0)
    by (apply vector3_eq; scene_eval; try lra).
  rewrite E1.
  scene_eval; try lra.
Defined.

(** ** The initial placement search *)

Lemma testPositions_altitudes :
  testPositions = map (fun a => mkVector3 0 a 0) [5; 2; 0; -5].
Proof. reflexivity. Qed.

Lemma raise_hit_point (hit : Intersection) :
  set_y (point hit) (y (point hit) + 0.1) = add (point hit) (mkVector3 0 0.1 0).
Proof. apply vector3_eq; simpl; lra. Qed.

Lemma findStartPosition_loop_first_hit (q : RayQuery) (before after : list R)
      (alt : R) (hit : Intersection) (rest : list Intersection) :
  (forall a, In a before -> q (mkVector3 0 a 0) (mkVector3 0 (-1) 0) Infinity = []) ->
  q (mkVector3 0 alt 0) (mkVector3 0 (-1) 0) Infinity = hit :: rest ->
  findStartPosition_loop q (map (fun a => mkVector3 0 a 0) (before ++ alt :: after))
  = Some (add (point hit) (mkVector3 0 0.1 0)).
Proof.
  intros Hmiss Hhit.
  induction before as [|b before IH]; simpl.
  - rewrite Hhit, raise_hit_point; reflexivity.
  - rewrite (Hmiss b) by (left; reflexivity).
    apply IH; intros a Ha; apply Hmiss; right; exact Ha.
Qed.

Lemma findStartPosition_loop_all_miss (q : RayQuery) (alts : list R) :
  (forall a, In a alts -> q (mkVector3 0 a 0) (mkVector3 0 (-1) 0) Infinity = []) ->
  findStartPosition_loop q (map (fun a => mkVector3 0 a 0) alts) = None.
Proof.
  induction alts as [|b alts IH]; intros Hmiss; simpl; [reflexivity|].
  rewrite (Hmiss b) by (left; reflexivity).
  apply IH; intros a Ha; apply Hmiss; right; exact Ha.
Qed.

Lemma floor_from_above (ox oy oz : R) :
  0 <= oy ->
  Scene.floor (mkVector3 ox oy oz) (mkVector3 0 (-1) 0) Infinity
  = [mkIntersection ((0 - oy) / -1) (add (mkVector3 ox oy oz)
                                         (multiplyScalar (mkVector3 0 (-1) 0) ((0 - oy) / -1)))].
Proof.
  intros Hoy.
  unfold Scene.floor, Scene.intersectPlanes; cbn [Scene.hits].
  unfold Scene.hitPlane; cbn [Scene.coord Scene.axis Scene.offset Scene.within y].
  destruct (Req_dec_T (-1) 0); [lra|].
  rewrite JS_le_true by lra; reflexivity.
Qed.

(** C5: the placement search.  Downward rays from (0, a, 0) for a in 5, 2,
    0, -5, in that order; the first altitude with a hit places the character
    at the hit point plus 0.1 vertically; if none hits, one upward ray from
    (0, -50, 0), with the same offset on a hit; if that misses too, the
    origin.  On a single floor at height 0 the search ends at (0, 0.1, 0). *)
Theorem findStartPosition_search :
  (forall (q : RayQuery) (p : Player.t),
     (forall before alt after hit rest,
        [5; 2; 0; -5] = before ++ alt :: after ->
        (forall a, In a before ->
                   q (mkVector3 0 a 0) (mkVector3 0 (-1) 0) Infinity = []) ->
        q (mkVector3 0 alt 0) (mkVector3 0 (-1) 0) Infinity = hit :: rest ->
        Player.position (findStartPosition q p) = add (point hit) (mkVector3 0 0.1 0))
     /\ ((forall a, In a [5; 2; 0; -5] ->
                    q (mkVector3 0 a 0) (mkVector3 0 (-1) 0) Infinity = []) ->
         (forall hit rest,
            q (mkVector3 0 (-50) 0) (mkVector3 0 1 0) Infinity = hit :: rest ->
            Player.position (findStartPosition q p) = add (point hit) (mkVector3 0 0.1 0))
         /\ (q (mkVector3 0 (-50) 0) (mkVector3 0 1 0) Infinity = [] ->
             Player.position (findStartPosition q p) = mkVector3 0 0 0)))
  /\ (forall p : Player.t,
        Player.position (findStartPosition Scene.floor p) = mkVector3 0 0.1 0).
Proof.
  split.
  - intros q p; split.
    + intros before alt after hit rest Halts Hmiss Hhit.
      unfold findStartPosition; rewrite testPositions_altitudes, Halts.
      rewrite (findStartPosition_loop_first_hit q before after alt hit rest Hmiss Hhit).
      reflexivity.
    + intros Hmiss.
      assert (Hloop : findStartPosition_loop q testPositions = None).
      { rewrite testPositions_altitudes.
        apply findStartPosition_loop_all_miss; exact Hmiss. }
      split.
      * intros hit rest Hup; unfold findStartPosition.
        rewrite Hloop, Hup, raise_hit_point; reflexivity.
      * intros Hup; unfold findStartPosition.
        rewrite Hloop, Hup; reflexivity.
  - intros p; unfold findStartPosition.
    rewrite testPositions_altitudes.
    pose proof (findStartPosition_loop_first_hit Scene.floor [] [2; 0; -5] 5 _ []
                  (fun a (H : In a []) => match H with end)
                  (floor_from_above 0 5 0 ltac:(lra))) as Hloop.
    cbn [app] in Hloop; rewrite Hloop.
    cbn [Player.position Player.set_position point].
    apply vector3_eq; simpl; lra.
Qed.

(** The search on the single floor, through the first clause of the
    theorem: altitude 5 is the first to hit, at the point (0, 0, 0). *)
Lemma findStartPosition_search_floor :
  Player.position (findStartPosition Scene.floor Player.initial)
  = add (add (mkVector3 0 5 0) (multiplyScalar (mkVector3 0 (-1) 0) ((0 - 5) / -1)))
        (mkVector3 0 0.1 0).
Proof.
  exact (proj1 (proj1 findStartPosition_search Scene.floor Player.initial)
               [] 5 [2; 0; -5] _ []
               eq_refl
               (fun a (H : In a []) => match H with end)
               (floor_from_above 0 5 0 ltac:(lra))).
Defined.

(** ** The ground check *)

Section GroundCheck.

Variable q : RayQuery.

Lemma checkGround_no_hit (p : Player.t) :
  groundHits q p = [] -> checkGround q p = Player.set_isGrounded p false.
Proof.
  unfold groundHits, checkGround; cbv zeta; intros ->.
  cbn [List.length Nat.eqb]; rewrite orb_true_r; reflexivity.
Qed.

Lemma checkGround_snap (p : Player.t) (hit : Intersection) (rest : list Intersection) :
  groundHits q p = hit :: rest ->
  JS.le (y (Player.position p) - y (point hit)) 0.15
  && JS.le (y (Player.velocity p)) 0 = true ->
  checkGround q p
  = Player.set_isGrounded
      (Player.set_velocity
         (Player.set_position p (set_y (Player.position p) (y (point hit) + 0.01)))
         (set_y (Player.velocity p) 0))
      true.
Proof.
  unfold groundHits, checkGround; cbv zeta; intros -> ->; reflexivity.
Qed.

Lemma checkGround_no_snap (p : Player.t) (hit : Intersection) (rest : list Intersection) :
  groundHits q p = hit :: rest ->
  JS.le (y (Player.position p) - y (point hit)) 0.15
  && JS.le (y (Player.velocity p)) 0 = false ->
  checkGround q p
  = if JS.gt (y (Player.velocity p)) 0 then Player.set_isGrounded p false else p.
Proof.
  unfold groundHits, checkGround; cbv zeta; intros -> ->.
  cbn [List.length Nat.eqb]; rewrite orb_false_r; reflexivity.
Qed.

(** C6, as the script has it: a second ground check changes nothing when
    the first one did not snap the player, and also when it snapped the
    player onto a surface and the ray cast from the snapped position again
    reports its nearest hit at that height. *)
Theorem checkGround_idempotent (p : Player.t) :
  (forall hit rest,
     groundHits q p = hit :: rest ->
     snaps q p = true ->
     exists hit' rest',
       groundHits q (checkGround q p) = hit' :: rest'
       /\ y (point hit') = y (point hit)) ->
  checkGround q (checkGround q p) = checkGround q p.
Proof.
  intros Hsame; unfold snaps in Hsame.
  destruct (groundHits q p) as [|hit rest] eqn:Hhits.
  - rewrite (checkGround_no_hit p Hhits).
    rewrite (checkGround_no_hit (Player.set_isGrounded p false)); [reflexivity | exact Hhits].
  - specialize (Hsame hit rest eq_refl).
    destruct (JS.le (y (Player.position p) - y (point hit)) 0.15
              && JS.le (y (Player.velocity p)) 0) eqn:Hsnap.
    + destruct (Hsame eq_refl) as (hit' & rest' & Hhits' & Hy).
      rewrite (checkGround_snap p hit rest Hhits Hsnap) in Hhits' |- *.
      rewrite (checkGround_snap _ hit' rest' Hhits').
      * cbn; rewrite Hy; reflexivity.
      * cbn; rewrite Hy, !JS_le_true by lra; reflexivity.
    + rewrite (checkGround_no_snap p hit rest Hhits Hsnap).
      destruct (JS.gt (y (Player.velocity p)) 0) eqn:Hgt.
      * rewrite (checkGround_no_snap (Player.set_isGrounded p false) hit rest Hhits Hsnap).
        cbn; rewrite Hgt; reflexivity.
      * rewrite (checkGround_no_snap p hit rest Hhits Hsnap), Hgt; reflexivity.
Qed.

End GroundCheck.

Lemma groundHits_twoFloors_low (p : Player.t) :
  0 <= y (Player.position p) + 0.5 < 0.3 ->
  exists hit, groundHits Scene.twoFloors p = [hit] /\ y (point hit) = 0.
Proof.
  intros Hy; unfold groundHits; cbv zeta.
  unfold Scene.twoFloors, Scene.intersectPlanes; cbn [Scene.hits].
  unfold Scene.hitPlane; cbn [Scene.coord Scene.axis Scene.offset Scene.within y].
  destruct (Req_dec_T (-1) 0); [lra|].
  rewrite (JS_le_true 0 ((0 - _) / -1)) by lra.
  rewrite (JS_le_true ((0 - _) / -1)) by lra.
  rewrite (JS_le_false 0 ((0.3 - _) / -1)) by lra.
  cbn [andb Scene.insertHit].
  eexists; split; [reflexivity|]; cbn; lra.
Qed.

Lemma groundHits_twoFloors_high (p : Player.t) :
  0.3 <= y (Player.position p) + 0.5 <= 1 ->
  exists hit rest, groundHits Scene.twoFloors p = hit :: rest /\ y (point hit) = 0.3.
Proof.
  intros Hy; unfold groundHits; cbv zeta.
  unfold Scene.twoFloors, Scene.intersectPlanes; cbn [Scene.hits].
  unfold Scene.hitPlane; cbn [Scene.coord Scene.axis Scene.offset Scene.within y].
  destruct (Req_dec_T (-1) 0); [lra|].
  rewrite (JS_le_true 0 ((0 - _) / -1)) by lra.
  rewrite (JS_le_true ((0 - _) / -1)) by lra.
  rewrite (JS_le_true 0 ((0.3 - _) / -1)) by lra.
  rewrite (JS_le_true ((0.3 - _) / -1)) by lra.
  cbn [andb Scene.insertHit distance].
  rewrite JS_le_false by lra.
  do 2 eexists; split; [reflexivity|]; cbn; lra.
Qed.

Lemma checkGround_twoFloors_once :
  Player.position (checkGround Scene.twoFloors sunk) = mkVector3 0 0.01 0.
Proof.
  destruct (groundHits_twoFloors_low sunk) as (h & Hh & Hy); [cbn; lra|].
  rewrite (checkGround_snap Scene.twoFloors sunk h [] Hh)
    by (rewrite Hy; cbn; rewrite !JS_le_true by lra; reflexivity).
  apply vector3_eq; cbn; lra.
Qed.

Lemma checkGround_twoFloors_twice :
  y (Player.position (checkGround Scene.twoFloors (checkGround Scene.twoFloors sunk))) = 0.31.
Proof.
  pose proof checkGround_twoFloors_once as Hpos.
  destruct (groundHits_twoFloors_low sunk) as (h & Hh & Hy); [cbn; lra|].
  rewrite (checkGround_snap Scene.twoFloors sunk h [] Hh) in Hpos |- *
    by (rewrite Hy; cbn; rewrite !JS_le_true by lra; reflexivity).
  match goal with |- context [checkGround _ ?s] => set (once := s) in * end.
  destruct (groundHits_twoFloors_high once) as (h' & rest' & Hh' & Hy');
    [rewrite Hpos; cbn; lra|].
  rewrite (checkGround_snap Scene.twoFloors once h' rest' Hh')
    by (rewrite Hpos, Hy'; cbn; rewrite !JS_le_true by lra; reflexivity).
  cbn; lra.
Qed.

(** C6, as worded, fails: with floors at heights 0 and 0.3 and the feet at
    -0.4 the first check snaps the player to 0.01, and the second, whose ray
    now starts above the upper floor, to 0.31. *)
Lemma checkGround_not_idempotent :
  y (Player.position (checkGround Scene.twoFloors (checkGround Scene.twoFloors sunk)))
  <> y (Player.position (checkGround Scene.twoFloors sunk)).
Proof.
  rewrite checkGround_twoFloors_once, checkGround_twoFloors_twice; cbn; lra.
Qed.

Lemma groundHits_floor (p : Player.t) :
  0 <= y (Player.position p) + 0.5 <= 1 ->
  exists hit, groundHits Scene.floor p = [hit] /\ y (point hit) = 0.
Proof.
  intros Hy; unfold groundHits; cbv zeta.
  unfold Scene.floor, Scene.intersectPlanes; cbn [Scene.hits].
  unfold Scene.hitPlane; cbn [Scene.coord Scene.axis Scene.offset Scene.within y].
  destruct (Req_dec_T (-1) 0); [lra|].
  rewrite !JS_le_true by lra; cbn [andb].
  eexists; split; [reflexivity|]; cbn; lra.
Qed.

(** On the single floor, a player hovering 0.1 above it is snapped to 0.01
    by the first check and left there by the second. *)
Lemma checkGround_idempotent_floor :
  checkGround Scene.floor (checkGround Scene.floor hovering)
  = checkGround Scene.floor hovering.
Proof.
  apply (checkGround_idempotent Scene.floor hovering).
  intros hit rest Hhits _.
  destruct (groundHits_floor hovering) as (h & Hh & Hy0); [cbn; lra|].
  rewrite Hh in Hhits; injection Hhits as <- _.
  rewrite (checkGround_snap Scene.floor hovering h [] Hh)
    by (rewrite Hy0; cbn; rewrite !JS_le_true by lra; reflexivity).
  destruct (groundHits_floor
              (Player.set_isGrounded
                 (Player.set_velocity
                    (Player.set_position hovering
                       (set_y (Player.position hovering) (y (point h) + 0.01)))
                    (set_y (Player.velocity hovering) 0)) true))
    as (h' & Hh' & Hy0'); [cbn; rewrite Hy0; lra|].
  exists h', []; split; [exact Hh' | congruence].
Defined.

(** ** The movement step *)

Lemma moveDirection_cases (k : Keys.t) :
  moveDirection k
  = mkVector3 ((if Keys.left k then -1 else 0) + (if Keys.right k then 1 else 0))
              0
              ((if Keys.forward k then -1 else 0) + (if Keys.backward k then 1 else 0)).
Proof.
  unfold moveDirection.
  destruct (Keys.forward k), (Keys.backward k), (Keys.left k), (Keys.right k);
    apply vector3_eq; cbn; lra.
Qed.

Lemma moveDirection_zero_iff (k : Keys.t) :
  lengthSq (moveDirection k) = 0 <-> noNetInput k.
Proof.
  rewrite moveDirection_cases; unfold noNetInput, lengthSq; cbn.
  destruct (Keys.forward k), (Keys.backward k), (Keys.left k), (Keys.right k);
    split; intros H; try (destruct H; discriminate); try lra; try (split; reflexivity).
Qed.

Lemma moveDirection_lengthSq_nonneg k : 0 <= lengthSq (moveDirection k).
Proof. unfold lengthSq. nra. Qed.

Lemma updateVelocity_decelerates (k : Keys.t) (p : Player.t) :
  noNetInput k ->
  updateVelocity k p
  = (Player.set_velocity (Player.set_isMoving p false)
       (mkVector3 (x (Player.velocity p) * 0.9) (y (Player.velocity p))
                  (z (Player.velocity p) * 0.9)),
     []).
Proof.
  intros H; apply moveDirection_zero_iff in H.
  unfold updateVelocity; cbv zeta; rewrite H.
  rewrite JS_gt_false by lra. reflexivity.
Qed.

Lemma updateVelocity_moves (k : Keys.t) (p : Player.t) :
  ~ noNetInput k ->
  snd (updateVelocity k p) = [Normalize (moveDirection k)]
  /\ 0 < lengthSq (moveDirection k).
Proof.
  intros H.
  assert (Hpos : 0 < lengthSq (moveDirection k)).
  { pose proof (moveDirection_lengthSq_nonneg k).
    destruct (Req_dec (lengthSq (moveDirection k)) 0) as [E|E]; [|lra].
    apply moveDirection_zero_iff in E; contradiction. }
  split; [|exact Hpos].
  unfold updateVelocity; cbv zeta. rewrite JS_gt_true by exact Hpos. reflexivity.
Qed.

Lemma noNetInput_dec (k : Keys.t) : {noNetInput k} + {~ noNetInput k}.
Proof.
  unfold noNetInput.
  destruct (Keys.forward k), (Keys.backward k), (Keys.left k), (Keys.right k);
    first [ left; split; reflexivity | right; intros [H1 H2]; discriminate ].
Qed.

Lemma updatePlayer_beforeReset_unfold (q : RayQuery) (delta : R) (w : World) :
  updatePlayer_beforeReset q delta w
  = (let w1 := updateJump (set_player w (fst (updateVelocity (keys w) (player w)))) in
     set_player w1 (moveAndGround q delta (applyGravity delta (player w1))),
     snd (updateVelocity (keys w) (player w))).
Proof.
  unfold updatePlayer_beforeReset.
  destruct (updateVelocity (keys w) (player w)); reflexivity.
Qed.

Lemma updatePlayer_traced_unfold (q : RayQuery) (delta : R) (w : World) :
  updatePlayer_traced q delta w
  = (let w1 := fst (updatePlayer_beforeReset q delta w) in
     set_player w1 (preventFalling (player w1)),
     snd (updateVelocity (keys w) (player w))).
Proof.
  unfold updatePlayer_traced.
  rewrite updatePlayer_beforeReset_unfold; reflexivity.
Qed.

Lemma length_pos_of_lengthSq (v : Vector3) : 0 < lengthSq v -> 0 < length v.
Proof. intros H; unfold length; apply sqrt_lt_R0; exact H. Qed.

Lemma or_num_nonzero (a : R) : JS.or_num a 1 <> 0.
Proof. unfold JS.or_num; destruct (Req_dec_T a 0); lra. Qed.


(** What each phase of the step leaves alone. *)

Lemma checkGround_frame (q : RayQuery) (p : Player.t) :
  let p' := checkGround q p in
  Player.rotation p' = Player.rotation p
  /\ Player.pitch p' = Player.pitch p
  /\ Player.isMoving p' = Player.isMoving p
  /\ x (Player.velocity p') = x (Player.velocity p)
  /\ z (Player.velocity p') = z (Player.velocity p)
  /\ x (Player.position p') = x (Player.position p)
  /\ z (Player.position p') = z (Player.position p).
Proof.
  unfold checkGround; cbv zeta.
  destruct (q _ _ _) as [|hit rest];
    repeat match goal with |- context [if ?c then _ else _] => destruct c end;
    cbn; repeat split; reflexivity.
Qed.

Lemma moveAndGround_frame (q : RayQuery) (delta : R) (p : Player.t) :
  let p' := moveAndGround q delta p in
  Player.rotation p' = Player.rotation p
  /\ Player.pitch p' = Player.pitch p
  /\ Player.isMoving p' = Player.isMoving p
  /\ x (Player.velocity p') = x (Player.velocity p)
  /\ z (Player.velocity p') = z (Player.velocity p).
Proof.
  unfold moveAndGround; cbv zeta.
  destruct (checkGround_frame q (Player.set_position p (checkCollision q (integrate delta p))))
    as (H1 & H2 & H3 & H4 & H5 & _).
  repeat split; assumption.
Qed.

Lemma applyGravity_frame (delta : R) (p : Player.t) :
  let p' := applyGravity delta p in
  Player.rotation p' = Player.rotation p
  /\ Player.pitch p' = Player.pitch p
  /\ Player.isMoving p' = Player.isMoving p
  /\ Player.isGrounded p' = Player.isGrounded p
  /\ Player.position p' = Player.position p
  /\ x (Player.velocity p') = x (Player.velocity p)
  /\ z (Player.velocity p') = z (Player.velocity p).
Proof.
  unfold applyGravity; cbv zeta.
  destruct (negb (Player.isGrounded p)); cbn; repeat split; reflexivity.
Qed.

Lemma updateJump_frame (w : World) :
  let w' := updateJump w in
  Player.rotation (player w') = Player.rotation (player w)
  /\ Player.pitch (player w') = Player.pitch (player w)
  /\ Player.isMoving (player w') = Player.isMoving (player w)
  /\ Player.position (player w') = Player.position (player w)
  /\ x (Player.velocity (player w')) = x (Player.velocity (player w))
  /\ z (Player.velocity (player w')) = z (Player.velocity (player w))
  /\ Keys.forward (keys w') = Keys.forward (keys w)
  /\ Keys.backward (keys w') = Keys.backward (keys w)
  /\ Keys.left (keys w') = Keys.left (keys w)
  /\ Keys.right (keys w') = Keys.right (keys w)
  /\ snoopy w' = snoopy w
  /\ camera_position w' = camera_position w.
Proof.
  unfold updateJump; cbv zeta.
  destruct (Keys.jump (keys w) && Player.isGrounded (player w));
    cbn; repeat split; reflexivity.
Qed.

Lemma preventFalling_frame (p : Player.t) :
  let p' := preventFalling p in
  Player.rotation p' = Player.rotation p
  /\ Player.pitch p' = Player.pitch p
  /\ Player.isMoving p' = Player.isMoving p
  /\ Player.isGrounded p' = Player.isGrounded p.
Proof.
  unfold preventFalling.
  destruct (JS.lt _ _); cbn; repeat split; reflexivity.
Qed.

Lemma updateVelocity_frame (k : Keys.t) (p : Player.t) :
  let p' := fst (updateVelocity k p) in
  Player.rotation p' = Player.rotation p
  /\ Player.pitch p' = Player.pitch p
  /\ Player.isGrounded p' = Player.isGrounded p
  /\ Player.position p' = Player.position p
  /\ y (Player.velocity p') = y (Player.velocity p).
Proof.
  unfold updateVelocity; cbv zeta; cbn [Player.isMoving Player.set_isMoving].
  destruct (JS.gt _ _); cbn; repeat split; reflexivity.
Qed.

(** C9: the step normalizes only a direction of positive length, and the
    divisor it then uses is that length; with no net directional input
    (all four keys unset, or opposing keys cancelling) the direction has
    length zero, nothing is normalized, the moving flag is cleared and the
    horizontal velocity is decelerated instead. *)
Theorem updatePlayer_guards_normalize (q : RayQuery) (delta : R) (w : World) :
  (forall c, In c (snd (updatePlayer_traced q delta w)) ->
             divisor c <> 0
             /\ exists v, c = Normalize v /\ 0 < lengthSq v /\ divisor c = length v)
  /\ (Keys.forward (keys w) = Keys.backward (keys w) ->
      Keys.left (keys w) = Keys.right (keys w) ->
      lengthSq (moveDirection (keys w)) = 0
      /\ snd (updatePlayer_traced q delta w) = []
      /\ Player.isMoving (player (updatePlayer q delta w)) = false
      /\ fst (updateVelocity (keys w) (player w))
         = Player.set_velocity (Player.set_isMoving (player w) false)
             (mkVector3 (x (Player.velocity (player w)) * 0.9)
                        (y (Player.velocity (player w)))
                        (z (Player.velocity (player w)) * 0.9))).
Proof.
  rewrite updatePlayer_traced_unfold; cbn [snd].
  split.
  - intros c Hc.
    destruct (noNetInput_dec (keys w)) as [Hno|Hmove].
    + rewrite (updateVelocity_decelerates _ _ Hno) in Hc; destruct Hc.
    + destruct (updateVelocity_moves (keys w) (player w) Hmove) as [Hcalls Hpos].
      rewrite Hcalls in Hc; destruct Hc as [<-|[]].
      split; [apply or_num_nonzero|].
      exists (moveDirection (keys w)); split; [reflexivity|]; split; [exact Hpos|].
      cbn; unfold JS.or_num.
      pose proof (length_pos_of_lengthSq _ Hpos).
      destruct (Req_dec_T _ 0); [lra | reflexivity].
  - intros Hfb Hlr.
    assert (Hno : noNetInput (keys w)) by (split; assumption).
    split; [apply moveDirection_zero_iff; exact Hno|].
    rewrite (updateVelocity_decelerates _ _ Hno); cbn [fst snd].
    split; [reflexivity|]; split; [|reflexivity].
    unfold updatePlayer; rewrite updatePlayer_traced_unfold; cbn [fst].
    rewrite updatePlayer_beforeReset_unfold; cbn [fst].
    cbv zeta; cbn [player set_player].
    destruct (preventFalling_frame
                (moveAndGround q delta
                   (applyGravity delta
                      (player (updateJump (set_player w (fst (updateVelocity (keys w) (player w))))))))) as (_ & _ & -> & _).
    destruct (moveAndGround_frame q delta
                   (applyGravity delta
                      (player (updateJump (set_player w (fst (updateVelocity (keys w) (player w)))))))) as (_ & _ & -> & _).
    destruct (applyGravity_frame delta
                      (player (updateJump (set_player w (fst (updateVelocity (keys w) (player w))))))) as (_ & _ & -> & _).
    destruct (updateJump_frame (set_player w (fst (updateVelocity (keys w) (player w))))) as (_ & _ & -> & _).
    rewrite (updateVelocity_decelerates _ _ Hno); reflexivity.
Qed.

(** With no key down nothing is normalized and the velocity decays. *)
Lemma updatePlayer_guards_normalize_sliding :
  lengthSq (moveDirection (keys sliding)) = 0
  /\ snd (updatePlayer_traced Scene.empty 0.016 sliding) = []
  /\ Player.isMoving (player (updatePlayer Scene.empty 0.016 sliding)) = false
  /\ fst (updateVelocity (keys sliding) (player sliding))
     = Player.set_velocity (Player.set_isMoving (player sliding) false)
         (mkVector3 (x (Player.velocity (player sliding)) * 0.9)
                    (y (Player.velocity (player sliding)))
                    (z (Player.velocity (player sliding)) * 0.9)).
Proof.
  exact (proj2 (updatePlayer_guards_normalize Scene.empty 0.016 sliding) eq_refl eq_refl).
Defined.

Lemma updatePlayer_unfold (q : RayQuery) (delta : R) (w : World) :
  updatePlayer q delta w
  = let w1 := updateJump (set_player w (fst (updateVelocity (keys w) (player w)))) in
    set_player w1 (preventFalling (moveAndGround q delta (applyGravity delta (player w1)))).
Proof.
  unfold updatePlayer; rewrite updatePlayer_traced_unfold; cbn [fst].
  rewrite updatePlayer_beforeReset_unfold; reflexivity.
Qed.

Lemma updatePlayer_keys (q : RayQuery) (delta : R) (w : World) :
  Keys.forward (keys (updatePlayer q delta w)) = Keys.forward (keys w)
  /\ Keys.backward (keys (updatePlayer q delta w)) = Keys.backward (keys w)
  /\ Keys.left (keys (updatePlayer q delta w)) = Keys.left (keys w)
  /\ Keys.right (keys (updatePlayer q delta w)) = Keys.right (keys w).
Proof.
  rewrite updatePlayer_unfold; cbv zeta; cbn [keys set_player].
  destruct (updateJump_frame (set_player w (fst (updateVelocity (keys w) (player w)))))
    as (_ & _ & _ & _ & _ & _ & H1 & H2 & H3 & H4 & _).
  repeat split; assumption.
Qed.

Lemma updatePlayer_noNetInput (q : RayQuery) (delta : R) (w : World) :
  noNetInput (keys w) -> noNetInput (keys (updatePlayer q delta w)).
Proof.
  unfold noNetInput.
  destruct (updatePlayer_keys q delta w) as (-> & -> & -> & ->); trivial.
Qed.

Lemma preventFalling_velocity (p : Player.t) :
  Player.velocity (preventFalling p) = Player.velocity p
  \/ Player.velocity (preventFalling p) = mkVector3 0 0 0.
Proof.
  unfold preventFalling; destruct (JS.lt _ _); cbn; [right | left]; reflexivity.
Qed.

Lemma updatePlayer_horizontal_velocity (q : RayQuery) (delta : R) (w : World) :
  noNetInput (keys w) ->
  let v := Player.velocity (player w) in
  let v' := Player.velocity (player (updatePlayer q delta w)) in
  (x v' = x v * 0.9 /\ z v' = z v * 0.9) \/ (x v' = 0 /\ z v' = 0).
Proof.
  intros Hno; cbv zeta.
  rewrite updatePlayer_unfold; cbv zeta; cbn [player set_player].
  set (w1 := updateJump (set_player w (fst (updateVelocity (keys w) (player w))))).
  destruct (preventFalling_velocity (moveAndGround q delta (applyGravity delta (player w1))))
    as [-> | ->]; [left | right; split; reflexivity].
  destruct (moveAndGround_frame q delta (applyGravity delta (player w1)))
    as (_ & _ & _ & -> & ->).
  destruct (applyGravity_frame delta (player w1)) as (_ & _ & _ & _ & _ & -> & ->).
  subst w1.
  destruct (updateJump_frame (set_player w (fst (updateVelocity (keys w) (player w)))))
    as (_ & _ & _ & _ & -> & -> & _).
  rewrite (updateVelocity_decelerates _ _ Hno); cbn; split; reflexivity.
Qed.

Lemma horizontalSpeed_nonneg (v : Vector3) : 0 <= horizontalSpeed v.
Proof. unfold horizontalSpeed; apply sqrt_pos. Qed.

Lemma horizontalSpeed_scaled (v v' : Vector3) :
  x v' = x v * 0.9 -> z v' = z v * 0.9 ->
  horizontalSpeed v' = 0.9 * horizontalSpeed v.
Proof.
  intros Hx Hz; unfold horizontalSpeed; rewrite Hx, Hz.
  replace (x v * 0.9 * (x v * 0.9) + z v * 0.9 * (z v * 0.9))
    with ((0.9 * 0.9) * (x v * x v + z v * z v)) by lra.
  rewrite sqrt_mult by nra.
  rewrite sqrt_square by lra; reflexivity.
Qed.

Lemma horizontalSpeed_zero (v : Vector3) : x v = 0 -> z v = 0 -> horizontalSpeed v = 0.
Proof.
  intros Hx Hz; unfold horizontalSpeed; rewrite Hx, Hz.
  replace (0 * 0 + 0 * 0) with 0 by lra; apply sqrt_0.
Qed.

Lemma updatePlayer_damps (q : RayQuery) (delta : R) (w : World) :
  noNetInput (keys w) ->
  horizontalSpeed (Player.velocity (player (updatePlayer q delta w)))
  <= 0.9 * horizontalSpeed (Player.velocity (player w)).
Proof.
  intros Hno.
  pose proof (horizontalSpeed_nonneg (Player.velocity (player w))) as Hpos.
  destruct (updatePlayer_horizontal_velocity q delta w Hno) as [[Hx Hz] | [Hx Hz]].
  - rewrite (horizontalSpeed_scaled _ _ Hx Hz); lra.
  - rewrite (horizontalSpeed_zero _ Hx Hz); lra.
Qed.

Lemma steps_damp (q : RayQuery) (deltas : list R) :
  forall w, noNetInput (keys w) ->
  noNetInput (keys (steps q deltas w))
  /\ horizontalSpeed (Player.velocity (player (steps q deltas w)))
     <= 0.9 ^ List.length deltas * horizontalSpeed (Player.velocity (player w)).
Proof.
  induction deltas as [|delta deltas IH]; intros w Hno; cbn [steps fold_left List.length pow].
  - split; [exact Hno | lra].
  - destruct (IH (updatePlayer q delta w) (updatePlayer_noNetInput q delta w Hno)) as [Hk Hs].
    split; [exact Hk|].
    eapply Rle_trans; [exact Hs|].
    pose proof (updatePlayer_damps q delta w Hno).
    assert (0 <= 0.9 ^ List.length deltas) by (apply pow_le; lra).
    nra.
Qed.

(** C7: with no net directional input a step multiplies the horizontal
    velocity by 0.9, so the horizontal speed never increases from one step
    to the next; and for every bound on the initial speed and every
    [eps > 0] there is a number of steps, depending on these two only, from
    which on the speed is below [eps]. *)
Theorem damping_convergence :
  (forall (q : RayQuery) (delta : R) (w : World),
     noNetInput (keys w) ->
     horizontalSpeed (Player.velocity (fst (updateVelocity (keys w) (player w))))
     = 0.9 * horizontalSpeed (Player.velocity (player w))
     /\ horizontalSpeed (Player.velocity (player (updatePlayer q delta w)))
        <= horizontalSpeed (Player.velocity (player w))
     /\ noNetInput (keys (updatePlayer q delta w)))
  /\ (forall speed0 eps : R,
        0 < eps ->
        exists N : nat,
          forall (q : RayQuery) (w : World) (deltas : list R),
            noNetInput (keys w) ->
            horizontalSpeed (Player.velocity (player w)) <= speed0 ->
            (N <= List.length deltas)%nat ->
            horizontalSpeed (Player.velocity (player (steps q deltas w))) < eps).
Proof.
  split.
  - intros q delta w Hno; split; [|split].
    + rewrite (updateVelocity_decelerates _ _ Hno); cbn [fst].
      apply horizontalSpeed_scaled; reflexivity.
    + pose proof (updatePlayer_damps q delta w Hno).
      pose proof (horizontalSpeed_nonneg (Player.velocity (player w))); lra.
    + apply updatePlayer_noNetInput; exact Hno.
  - intros speed0 eps Heps.
    assert (Hbound : 0 < eps / (Rabs speed0 + 1)).
    { apply Rdiv_lt_0_compat; [exact Heps|]. pose proof (Rabs_pos speed0); lra. }
    destruct (pow_lt_1_zero 0.9 ltac:(rewrite Rabs_pos_eq; lra) _ Hbound) as [N HN].
    exists N; intros q w deltas Hno Hspeed Hlen.
    destruct (steps_damp q deltas w Hno) as [_ Hs].
    specialize (HN (List.length deltas) Hlen).
    rewrite Rabs_pos_eq in HN by (apply pow_le; lra).
    pose proof (horizontalSpeed_nonneg (Player.velocity (player w))) as H0.
    pose proof (Rabs_pos speed0) as Ha.
    pose proof (Rle_abs speed0) as Hb.
    assert (Hp : 0 <= 0.9 ^ List.length deltas) by (apply pow_le; lra).
    eapply Rle_lt_trans; [exact Hs|].
    apply Rle_lt_trans with (0.9 ^ List.length deltas * (Rabs speed0 + 1)); [nra|].
    apply (Rmult_lt_compat_r (Rabs speed0 + 1)) in HN; [|lra].
    unfold Rdiv in HN; rewrite Rmult_assoc, Rinv_l, Rmult_1_r in HN by lra.
    exact HN.
Qed.

(** One step of the sliding character: the speed drops by the factor 0.9. *)
Lemma damping_convergence_sliding :
  horizontalSpeed (Player.velocity (fst (updateVelocity (keys sliding) (player sliding))))
  = 0.9 * horizontalSpeed (Player.velocity (player sliding))
  /\ horizontalSpeed (Player.velocity (player (updatePlayer Scene.empty 0.016 sliding)))
     <= horizontalSpeed (Player.velocity (player sliding))
  /\ noNetInput (keys (updatePlayer Scene.empty 0.016 sliding)).
Proof.
  exact (proj1 damping_convergence Scene.empty 0.016 sliding (conj eq_refl eq_refl)).
Defined.

Lemma world_eta (w : World) : set_player w (player w) = w.
Proof. destruct w; reflexivity. Qed.

Lemma preventFalling_below (p : Player.t) :
  y (Player.position p) < -10 ->
  preventFalling p
  = Player.set_velocity (Player.set_position p (mkVector3 0 5 0)) (mkVector3 0 0 0).
Proof. intros H; unfold preventFalling; rewrite JS_lt_true by exact H; reflexivity. Qed.

Lemma preventFalling_above (p : Player.t) :
  -10 <= y (Player.position p) -> preventFalling p = p.
Proof. intros H; unfold preventFalling; rewrite JS_lt_false by exact H; reflexivity. Qed.

(** C4: when the position reached by the step (after integration,
    collision resolution and the ground check) is below y = -10, the step
    ends with the position at the spawn point (0, 5, 0) and the velocity
    zero; when it is at or above -10, the step ends in that state
    unchanged. *)
Theorem updatePlayer_fall_reset (q : RayQuery) (delta : R) (w : World) :
  let before := fst (updatePlayer_beforeReset q delta w) in
  (y (Player.position (player before)) < -10 ->
   Player.position (player (updatePlayer q delta w)) = mkVector3 0 5 0
   /\ Player.velocity (player (updatePlayer q delta w)) = mkVector3 0 0 0)
  /\ (-10 <= y (Player.position (player before)) ->
      updatePlayer q delta w = before).
Proof.
  cbv zeta; unfold updatePlayer; rewrite updatePlayer_traced_unfold; cbn [fst].
  set (before := fst (updatePlayer_beforeReset q delta w)).
  cbv zeta; split; intros Hy.
  - rewrite (preventFalling_below _ Hy); split; reflexivity.
  - rewrite (preventFalling_above _ Hy); apply world_eta.
Qed.

Lemma checkCollision_empty (pos : Vector3) : checkCollision Scene.empty pos = pos.
Proof. reflexivity. Qed.

Lemma checkGround_empty (p : Player.t) :
  checkGround Scene.empty p = Player.set_isGrounded p false.
Proof. apply checkGround_no_hit; reflexivity. Qed.

Lemma fallen_before_reset (delta : R) :
  0 <= delta ->
  y (Player.position (player (fst (updatePlayer_beforeReset Scene.empty delta fallen)))) < -10.
Proof.
  intros Hdelta.
  rewrite updatePlayer_beforeReset_unfold; cbv zeta; cbn [fst player set_player].
  unfold moveAndGround; rewrite checkCollision_empty, checkGround_empty.
  rewrite (updateVelocity_decelerates (keys fallen) (player fallen))
    by (split; reflexivity).
  cbn; unfold CONFIG.gravity; nra.
Qed.

Lemma updatePlayer_fall_reset_fallen :
  Player.position (player (updatePlayer Scene.empty 0.016 fallen)) = mkVector3 0 5 0
  /\ Player.velocity (player (updatePlayer Scene.empty 0.016 fallen)) = mkVector3 0 0 0.
Proof.
  apply (proj1 (updatePlayer_fall_reset Scene.empty 0.016 fallen)).
  apply fallen_before_reset; lra.
Defined.

(** *** Jumping *)

Lemma updateCamera_frame (q : RayQuery) (w : World) :
  player (updateCamera q w) = player w
  /\ keys (updateCamera q w) = keys w
  /\ snoopy (updateCamera q w) = snoopy w.
Proof.
  unfold updateCamera.
  destruct (negb (snoopy w)); [repeat split; reflexivity|].
  cbv zeta; destruct (cameraIntersects q (player w)) as [|hit rest];
    [|destruct (JS.gt _ _)]; repeat split; reflexivity.
Qed.

Lemma updateJump_impulse (w : World) :
  Keys.jump (keys w) = true ->
  Player.isGrounded (player w) = true ->
  y (Player.velocity (player (updateJump w))) = CONFIG.jumpForce
  /\ Player.isGrounded (player (updateJump w)) = false
  /\ Keys.jump (keys (updateJump w)) = false.
Proof.
  intros Hj Hg; unfold updateJump; rewrite Hj, Hg; cbn.
  repeat split; reflexivity.
Qed.

Lemma updateJump_idle (w : World) :
  Keys.jump (keys w) && Player.isGrounded (player w) = false -> updateJump w = w.
Proof. intros H; unfold updateJump; rewrite H; reflexivity. Qed.

Lemma checkGround_rising (q : RayQuery) (p : Player.t) :
  0 < y (Player.velocity p) -> checkGround q p = Player.set_isGrounded p false.
Proof.
  intros Hv; unfold checkGround; cbv zeta.
  rewrite (JS_gt_true _ 0 Hv); cbn [orb].
  destruct (q _ _ _) as [|hit rest]; [reflexivity|].
  rewrite (JS_le_false _ 0 Hv), andb_false_r; reflexivity.
Qed.

Lemma updatePlayer_jump_key (q : RayQuery) (delta : R) (w : World) :
  Keys.jump (keys (updatePlayer q delta w))
  = Keys.jump (keys w) && negb (Player.isGrounded (player w)).
Proof.
  rewrite updatePlayer_unfold; cbv zeta; cbn [keys set_player].
  unfold updateJump; cbn [keys player set_player].
  destruct (updateVelocity_frame (keys w) (player w)) as (_ & _ & -> & _).
  destruct (Keys.jump (keys w)) eqn:Hj, (Player.isGrounded (player w));
    cbn; rewrite ?Hj; reflexivity.
Qed.

Lemma updatePlayer_impulse_before_reset (q : RayQuery) (delta : R) (w : World) :
  Keys.jump (keys w) = true ->
  Player.isGrounded (player w) = true ->
  40 * delta < 12 ->
  let p := player (fst (updatePlayer_beforeReset q delta w)) in
  Player.isGrounded p = false
  /\ y (Player.velocity p) = CONFIG.jumpForce - CONFIG.gravity * delta.
Proof.
  intros Hj Hg Hdelta; cbv zeta.
  rewrite updatePlayer_beforeReset_unfold; cbv zeta; cbn [fst player set_player].
  set (w0 := set_player w (fst (updateVelocity (keys w) (player w)))).
  assert (Hg0 : Player.isGrounded (player w0) = true).
  { subst w0; cbn [player set_player].
    destruct (updateVelocity_frame (keys w) (player w)) as (_ & _ & -> & _); exact Hg. }
  destruct (updateJump_impulse w0 Hj Hg0) as (Hvy & Hair & _).
  assert (Hgrav : y (Player.velocity (applyGravity delta (player (updateJump w0))))
                  = CONFIG.jumpForce - CONFIG.gravity * delta).
  { unfold applyGravity; rewrite Hair; cbn; rewrite Hvy; reflexivity. }
  unfold moveAndGround; rewrite checkGround_rising.
  - cbn; split; [reflexivity | exact Hgrav].
  - cbn [Player.velocity Player.set_position].
    rewrite Hgrav; unfold CONFIG.gravity, CONFIG.jumpForce; lra.
Qed.

Lemma updatePlayer_impulse_airborne (q : RayQuery) (delta : R) (w : World) :
  Keys.jump (keys w) = true ->
  Player.isGrounded (player w) = true ->
  40 * delta < 12 ->
  Player.isGrounded (player (updatePlayer q delta w)) = false.
Proof.
  intros Hj Hg Hdelta.
  destruct (updatePlayer_impulse_before_reset q delta w Hj Hg Hdelta) as [Hair _].
  unfold updatePlayer; rewrite updatePlayer_traced_unfold; cbv zeta; cbn [fst player set_player].
  destruct (preventFalling_frame (player (fst (updatePlayer_beforeReset q delta w))))
    as (_ & _ & _ & ->).
  exact Hair.
Qed.

Lemma animate_unfold (q : RayQuery) (locked : bool) (clockDelta : R) (w : World) :
  player (animate q locked clockDelta w)
  = player (if snoopy w && locked then updatePlayer q (JS.min clockDelta 0.1) w else w)
  /\ keys (animate q locked clockDelta w)
     = keys (if snoopy w && locked then updatePlayer q (JS.min clockDelta 0.1) w else w).
Proof.
  unfold animate; cbv zeta.
  destruct (updateCamera_frame q (if snoopy w && locked
                                  then updatePlayer q (JS.min clockDelta 0.1) w else w))
    as (-> & -> & _).
  split; reflexivity.
Qed.

Lemma clamped_delta (clockDelta : R) : 40 * JS.min clockDelta 0.1 < 12.
Proof. unfold JS.min; pose proof (Rmin_r clockDelta 0.1); lra. Qed.

Lemma jumpsAt_frame (q : RayQuery) (w : World) (e : Event) :
  jumpsAt w e = true ->
  Player.isGrounded (player w) = true
  /\ Keys.jump (keys w) = true
  /\ Player.isGrounded (player (handle q w e)) = false
  /\ Keys.jump (keys (handle q w e)) = false.
Proof.
  destruct e as [code|code|locked mx my|locked clockDelta]; cbn [jumpsAt handle];
    try discriminate.
  intros H; apply andb_prop in H; destruct H as [Hrun H].
  apply andb_prop in H; destruct H as [Hj Hg].
  destruct (animate_unfold q locked clockDelta w) as [-> ->]; rewrite Hrun.
  repeat split; try assumption.
  - apply updatePlayer_impulse_airborne; [assumption..|apply clamped_delta].
  - rewrite updatePlayer_jump_key, Hj, Hg; reflexivity.
Qed.

Lemma handle_snoopy (q : RayQuery) (w : World) (e : Event) :
  snoopy (handle q w e) = snoopy w.
Proof.
  destruct e as [code|code|locked mx my|locked clockDelta]; cbn [handle]; try reflexivity.
  unfold animate; cbv zeta.
  destruct (updateCamera_frame q (if snoopy w && locked
                                  then updatePlayer q (JS.min clockDelta 0.1) w else w))
    as (_ & _ & ->).
  destruct (snoopy w && locked); [|reflexivity].
  rewrite updatePlayer_unfold; cbv zeta; cbn [snoopy set_player].
  destruct (updateJump_frame (set_player w (fst (updateVelocity (keys w) (player w)))))
    as (_ & _ & _ & _ & _ & _ & _ & _ & _ & _ & -> & _).
  reflexivity.
Qed.

Lemma handle_jump_key (q : RayQuery) (w : World) (e : Event) :
  isSpaceDown e = false ->
  Keys.jump (keys (handle q w e)) = true -> Keys.jump (keys w) = true.
Proof.
  destruct e as [code|code|locked mx my|locked clockDelta]; cbn [handle isSpaceDown].
  - destruct code; try discriminate; intros _ H; exact H.
  - destruct code; intros _ H; try exact H; discriminate.
  - intros _ H; exact H.
  - intros _; destruct (animate_unfold q locked clockDelta w) as [_ ->].
    destruct (snoopy w && locked); [|trivial].
    rewrite updatePlayer_jump_key; intros H; apply andb_prop in H; tauto.
Qed.

Lemma countJumps_landings (q : RayQuery) (events : list Event) :
  forall w,
    (countJumps q w events
     <= (if Player.isGrounded (player w) then 1 else 0) + countLandings q w events)%nat.
Proof.
  induction events as [|e events IH]; intros w; cbn [countJumps countLandings]; [lia|].
  specialize (IH (handle q w e)).
  destruct (jumpsAt w e) eqn:Hjump.
  - destruct (jumpsAt_frame q w e Hjump) as (Hg & _ & Hair & _).
    rewrite Hg; rewrite Hair in IH; lia.
  - unfold landsAt.
    destruct (Player.isGrounded (player w)), (Player.isGrounded (player (handle q w e)));
      cbn [negb andb]; lia.
Qed.

Lemma countJumps_held (q : RayQuery) (events : list Event) :
  forall w,
    forallb (fun e => negb (isSpaceDown e)) events = true ->
    (countJumps q w events <= (if Keys.jump (keys w) then 1 else 0))%nat.
Proof.
  induction events as [|e events IH]; intros w Hnone; cbn [countJumps]; [lia|].
  cbn [forallb] in Hnone; apply andb_prop in Hnone; destruct Hnone as [He Hnone].
  apply negb_true_iff in He.
  specialize (IH (handle q w e) Hnone).
  destruct (jumpsAt w e) eqn:Hjump.
  - destruct (jumpsAt_frame q w e Hjump) as (_ & Hj & _ & Hj').
    rewrite Hj; rewrite Hj' in IH; lia.
  - destruct (Keys.jump (keys (handle q w e))) eqn:Hj'.
    + rewrite (handle_jump_key q w e He Hj'); lia.
    + lia.
Qed.

(** C2: in a step where the jump key is set and the player is grounded,
    the jump block sets the vertical velocity to 12, clears the grounded
    flag and clears the jump key; the key is still clear when the step ends
    and, for a delta below 0.3 (the frame loop caps it at 0.1), so is the
    grounded flag, the velocity being 12 less the gravity of that step.  A
    step that starts airborne leaves the jump block without effect.
    Consequently, along any run of events, every impulse happens in a frame
    that starts grounded and ends airborne with the key consumed, the
    impulses number at most one per time the player is grounded, and while
    the key is only held (no new key-down) there is at most one impulse. *)
Theorem jump_edge_triggered :
  (forall w : World,
     Keys.jump (keys w) = true ->
     Player.isGrounded (player w) = true ->
     (y (Player.velocity (player (updateJump w))) = CONFIG.jumpForce
      /\ CONFIG.jumpForce = 12
      /\ Player.isGrounded (player (updateJump w)) = false
      /\ Keys.jump (keys (updateJump w)) = false)
     /\ (forall (q : RayQuery) (delta : R),
           Keys.jump (keys (updatePlayer q delta w)) = false
           /\ (40 * delta < 12 ->
               Player.isGrounded (player (updatePlayer q delta w)) = false
               /\ y (Player.velocity (player (fst (updatePlayer_beforeReset q delta w))))
                  = CONFIG.jumpForce - CONFIG.gravity * delta)))
  /\ (forall w : World,
        Player.isGrounded (player w) = false -> updateJump w = w)
  /\ (forall (q : RayQuery) (w : World) (e : Event),
        jumpsAt w e = true ->
        Player.isGrounded (player w) = true
        /\ Player.isGrounded (player (handle q w e)) = false
        /\ Keys.jump (keys (handle q w e)) = false)
  /\ (forall (q : RayQuery) (w : World) (events : list Event),
        (countJumps q w events
         <= (if Player.isGrounded (player w) then 1 else 0)
            + countLandings q w events)%nat)
  /\ (forall (q : RayQuery) (w : World) (events : list Event),
        forallb (fun e => negb (isSpaceDown e)) events = true ->
        (countJumps q w events <= (if Keys.jump (keys w) then 1 else 0))%nat).
Proof.
  split; [|split; [|split; [|split]]].
  - intros w Hj Hg; split.
    + destruct (updateJump_impulse w Hj Hg) as (Hv & Ha & Hk).
      repeat split; assumption || reflexivity.
    + intros q delta; split.
      * rewrite updatePlayer_jump_key, Hj, Hg; reflexivity.
      * intros Hdelta; split.
        -- apply updatePlayer_impulse_airborne; assumption.
        -- apply updatePlayer_impulse_before_reset; assumption.
  - intros w Hair; apply updateJump_idle; rewrite Hair; apply andb_false_r.
  - intros q w e Hjump.
    destruct (jumpsAt_frame q w e Hjump) as (Hg & _ & Ha & Hk).
    repeat split; assumption.
  - intros q w events; apply countJumps_landings.
  - intros q w events; apply countJumps_held.
Qed.

(** The standing character with the jump key down: the jump block fires. *)
Lemma jump_edge_triggered_standing :
  y (Player.velocity (player (updateJump standing))) = CONFIG.jumpForce
  /\ CONFIG.jumpForce = 12
  /\ Player.isGrounded (player (updateJump standing)) = false
  /\ Keys.jump (keys (updateJump standing)) = false.
Proof.
  exact (proj1 (proj1 jump_edge_triggered standing eq_refl eq_refl)).
Defined.

(** ** The look handler *)

Lemma mousemove_pitch (locked : bool) (mx my : R) (p : Player.t) :
  pitchInRange p -> pitchInRange (mousemove locked mx my p).
Proof.
  unfold pitchInRange, mousemove; intros Hp.
  destruct (negb locked); [exact Hp|]; cbn.
  unfold JS.max, JS.min.
  pose proof PI_RGT_0 as Hpi.
  split.
  - apply Rmax_l.
  - apply Rmax_lub; [lra | apply Rmin_l].
Qed.

Lemma mousemove_locked_pitch (mx my : R) (p : Player.t) :
  pitchInRange (mousemove true mx my p).
Proof.
  unfold pitchInRange, mousemove; cbn.
  unfold JS.max, JS.min.
  pose proof PI_RGT_0 as Hpi.
  split.
  - apply Rmax_l.
  - apply Rmax_lub; [lra | apply Rmin_l].
Qed.

Lemma updatePlayer_pitch (q : RayQuery) (delta : R) (w : World) :
  Player.pitch (player (updatePlayer q delta w)) = Player.pitch (player w).
Proof.
  rewrite updatePlayer_unfold; cbv zeta; cbn [player set_player].
  set (w1 := updateJump (set_player w (fst (updateVelocity (keys w) (player w))))).
  destruct (preventFalling_frame (moveAndGround q delta (applyGravity delta (player w1))))
    as (_ & -> & _).
  destruct (moveAndGround_frame q delta (applyGravity delta (player w1))) as (_ & -> & _).
  destruct (applyGravity_frame delta (player w1)) as (_ & -> & _).
  subst w1.
  destruct (updateJump_frame (set_player w (fst (updateVelocity (keys w) (player w)))))
    as (_ & -> & _).
  cbn [player set_player].
  destruct (updateVelocity_frame (keys w) (player w)) as (_ & -> & _); reflexivity.
Qed.

Lemma handle_pitch (q : RayQuery) (w : World) (e : Event) :
  pitchInRange (player w) -> pitchInRange (player (handle q w e)).
Proof.
  intros Hp.
  destruct e as [code|code|locked mx my|locked clockDelta]; cbn [handle player set_keys set_player].
  - exact Hp.
  - exact Hp.
  - apply mousemove_pitch; exact Hp.
  - unfold animate; cbv zeta.
    destruct (updateCamera_frame q (if snoopy w && locked
                                    then updatePlayer q (JS.min clockDelta 0.1) w else w))
      as (-> & _).
    destruct (snoopy w && locked); [|exact Hp].
    unfold pitchInRange; rewrite updatePlayer_pitch; exact Hp.
Qed.

Lemma run_pitch (q : RayQuery) (events : list Event) :
  forall w, pitchInRange (player w) -> pitchInRange (player (run q w events)).
Proof.
  induction events as [|e events IH]; intros w Hp; cbn [run fold_left]; [exact Hp|].
  apply IH, handle_pitch; exact Hp.
Qed.

(** C3: from a pitch of 0, after any events (mouse moves with any deltas,
    keys, frames) and at every point of the run, the pitch lies in
    [-PI/3, PI/3]. *)
Theorem pitch_clamped (q : RayQuery) (w : World) (events : list Event) (n : nat) :
  Player.pitch (player w) = 0 ->
  - PI / 3 <= Player.pitch (player (run q w (firstn n events))) <= PI / 3.
Proof.
  intros H0; apply run_pitch.
  unfold pitchInRange; rewrite H0; pose proof PI_RGT_0; lra.
Qed.

Lemma pitch_clamped_initial :
  - PI / 3
  <= Player.pitch
       (player (run Scene.empty initialWorld
                    (firstn 2 [MouseMove true 0 1000; MouseMove true 0 (-5000)])))
  <= PI / 3.
Proof.
  apply (pitch_clamped Scene.empty initialWorld
           [MouseMove true 0 1000; MouseMove true 0 (-5000)] 2).
  reflexivity.
Defined.

(** ** The camera *)

Lemma camera_ray_vector (p : Player.t) :
  sub (desiredCameraPos p) (playerHead p)
  = mkVector3 (sin (Player.rotation p) * 3)
              (1 + sin (Player.pitch p) * 3)
              (cos (Player.rotation p) * 3).
Proof.
  unfold desiredCameraPos, playerHead, cameraOffset, CONFIG.cameraDistance,
    CONFIG.cameraHeight, CONFIG.characterHeight.
  apply vector3_eq; cbn; lra.
Qed.

Lemma camera_ray_lengthSq (p : Player.t) :
  9 <= lengthSq (sub (desiredCameraPos p) (playerHead p)).
Proof.
  rewrite camera_ray_vector; unfold lengthSq; cbn.
  pose proof (sin2_cos2 (Player.rotation p)) as H; unfold Rsqr in H.
  pose proof (Rle_0_sqr (1 + sin (Player.pitch p) * 3)) as Hsq; unfold Rsqr in Hsq.
  replace (sin (Player.rotation p) * 3 * (sin (Player.rotation p) * 3)
           + (1 + sin (Player.pitch p) * 3) * (1 + sin (Player.pitch p) * 3)
           + cos (Player.rotation p) * 3 * (cos (Player.rotation p) * 3))
    with (9 * (sin (Player.rotation p) * sin (Player.rotation p)
               + cos (Player.rotation p) * cos (Player.rotation p))
          + (1 + sin (Player.pitch p) * 3) * (1 + sin (Player.pitch p) * 3)) by ring.
  rewrite H; lra.
Qed.

Lemma normalize_unit (v : Vector3) : 0 < lengthSq v -> lengthSq (normalize v) = 1.
Proof.
  intros Hpos.
  assert (Hlen : 0 < length v) by (unfold length; apply sqrt_lt_R0; exact Hpos).
  assert (Hsq : length v * length v = lengthSq v)
    by (unfold length; apply sqrt_sqrt; lra).
  unfold normalize, divideScalar, JS.or_num.
  destruct (Req_dec_T (length v) 0); [lra|].
  unfold lengthSq in *; cbn.
  field_simplify_eq; [|lra]. nra.
Qed.

Lemma cameraDirection_unit (p : Player.t) : lengthSq (cameraDirection p) = 1.
Proof.
  unfold cameraDirection; apply normalize_unit.
  pose proof (camera_ray_lengthSq p); lra.
Qed.

Lemma distanceTo_along (o d : Vector3) (s : R) :
  lengthSq d = 1 -> 0 <= s ->
  distanceTo o (add o (multiplyScalar d s)) = s.
Proof.
  intros Hd Hs; unfold distanceTo, distanceToSquared; cbn.
  replace ((x o - (x o + x d * s)) * (x o - (x o + x d * s))
           + (y o - (y o + y d * s)) * (y o - (y o + y d * s))
           + (z o - (z o + z d * s)) * (z o - (z o + z d * s)))
    with (s * s * lengthSq d) by (unfold lengthSq; ring).
  rewrite Hd, Rmult_1_r; apply sqrt_square; exact Hs.
Qed.

Lemma distanceTo_self (o : Vector3) : distanceTo o o = 0.
Proof.
  unfold distanceTo, distanceToSquared; cbn.
  replace ((x o - x o) * (x o - x o) + (y o - y o) * (y o - y o)
           + (z o - z o) * (z o - z o)) with 0 by ring.
  apply sqrt_0.
Qed.

(** C8: in a camera update that runs (the character model is loaded, so
    the query is made), when the line-of-sight query from the head towards
    the desired camera position, bounded by the desired distance, reports a
    hit, the camera is placed on the ray at the hit distance minus 0.2 if
    that exceeds 0.5, and at the head otherwise; either way it is no farther
    from the head than the hit.  When nothing is reported the camera is at
    the desired position. *)
Theorem updateCamera_occlusion (q : RayQuery) (w : World) :
  snoopy w = true ->
  let p := player w in
  let cam := camera_position (updateCamera q w) in
  (forall hit rest,
     cameraIntersects q p = hit :: rest ->
     (0.5 < distance hit - 0.2 ->
      cam = add (playerHead p) (multiplyScalar (cameraDirection p) (distance hit - 0.2))
      /\ distanceTo (playerHead p) cam = distance hit - 0.2)
     /\ (distance hit - 0.2 <= 0.5 -> cam = playerHead p)
     /\ (0 <= distance hit -> distanceTo (playerHead p) cam <= distance hit))
  /\ (cameraIntersects q p = [] -> cam = desiredCameraPos p).
Proof.
  intros Hloaded; cbv zeta.
  unfold updateCamera; rewrite Hloaded; cbn [negb]; cbv zeta.
  split.
  - intros hit rest Hhit; rewrite Hhit.
    assert (Hfar : 0.5 < distance hit - 0.2 ->
                   camera_position
                     (if JS.gt (distance hit - 0.2) 0.5
                      then set_camera_position w
                             (add (playerHead (player w))
                                (multiplyScalar (cameraDirection (player w))
                                   (distance hit - 0.2)))
                      else set_camera_position w (playerHead (player w)))
                   = add (playerHead (player w))
                       (multiplyScalar (cameraDirection (player w)) (distance hit - 0.2))).
    { intros H; rewrite JS_gt_true by exact H; reflexivity. }
    assert (Hnear : distance hit - 0.2 <= 0.5 ->
                    camera_position
                      (if JS.gt (distance hit - 0.2) 0.5
                       then set_camera_position w
                              (add (playerHead (player w))
                                 (multiplyScalar (cameraDirection (player w))
                                    (distance hit - 0.2)))
                       else set_camera_position w (playerHead (player w)))
                    = playerHead (player w)).
    { intros H; rewrite JS_gt_false by exact H; reflexivity. }
    split; [|split].
    + intros H; rewrite (Hfar H); split; [reflexivity|].
      apply distanceTo_along; [apply cameraDirection_unit | lra].
    + exact Hnear.
    + intros Hdist.
      destruct (Rlt_le_dec 0.5 (distance hit - 0.2)) as [H|H].
      * rewrite (Hfar H), distanceTo_along; [lra | apply cameraDirection_unit | lra].
      * rewrite (Hnear H), distanceTo_self; exact Hdist.
  - intros Hnone; rewrite Hnone; reflexivity.
Qed.

Lemma sqrt_10_bounds : 3 < sqrt 10 < 4.
Proof.
  split.
  - replace 3 with (sqrt (3 * 3)) by (apply sqrt_square; lra).
    apply sqrt_lt_1; lra.
  - replace 4 with (sqrt (4 * 4)) by (apply sqrt_square; lra).
    apply sqrt_lt_1; lra.
Qed.

Lemma cameraDirection_initial :
  cameraDirection Player.initial = mkVector3 0 (1 / sqrt 10) (3 / sqrt 10).
Proof.
  pose proof sqrt_10_bounds as Hb.
  unfold cameraDirection; rewrite camera_ray_vector; cbn [Player.rotation Player.pitch Player.initial].
  rewrite sin_0, cos_0.
  unfold normalize, length, lengthSq; cbn [x y z].
  replace (0 * 3 * (0 * 3) + (1 + 0 * 3) * (1 + 0 * 3) + 1 * 3 * (1 * 3)) with 10 by lra.
  unfold JS.or_num; destruct (Req_dec_T (sqrt 10) 0); [lra|].
  unfold divideScalar, multiplyScalar; cbn [x y z].
  apply vector3_eq; cbn [x y z]; field; lra.
Qed.

Lemma cameraRayDistance_initial : cameraRayDistance Player.initial = sqrt 10.
Proof.
  unfold cameraRayDistance, distanceTo; f_equal.
  unfold distanceToSquared, desiredCameraPos, playerHead, cameraOffset,
    CONFIG.cameraDistance, CONFIG.cameraHeight, CONFIG.characterHeight.
  cbn; rewrite sin_0, cos_0; lra.
Qed.

Lemma cameraIntersects_wallBehind :
  exists hit,
    cameraIntersects Scene.wallBehind Player.initial = [hit]
    /\ distance hit = sqrt 10 / 2.
Proof.
  pose proof sqrt_10_bounds as Hb.
  unfold cameraIntersects.
  rewrite cameraDirection_initial, cameraRayDistance_initial.
  unfold Scene.wallBehind, Scene.intersectPlanes; cbn [Scene.hits].
  unfold Scene.hitPlane; cbn [Scene.coord Scene.axis Scene.offset Scene.within z].
  assert (Hz : 3 / sqrt 10 <> 0).
  { unfold Rdiv; apply Rmult_integral_contrapositive_currified; [lra|].
    apply Rinv_neq_0_compat; lra. }
  destruct (Req_dec_T (3 / sqrt 10) 0); [contradiction|].
  assert (Ht : (1.5 - z (playerHead Player.initial)) / (3 / sqrt 10) = sqrt 10 / 2).
  { change (z (playerHead Player.initial)) with 0.
    replace (1.5 - 0) with (3 / 2) by lra; field; lra. }
  rewrite Ht.
  rewrite !JS_le_true by lra; cbn [andb].
  eexists; split; reflexivity.
Qed.

Lemma updateCamera_occlusion_wall :
  exists hit,
    cameraIntersects Scene.wallBehind (player atOrigin) = [hit]
    /\ camera_position (updateCamera Scene.wallBehind atOrigin)
       = add (playerHead (player atOrigin))
             (multiplyScalar (cameraDirection (player atOrigin)) (distance hit - 0.2))
    /\ distanceTo (playerHead (player atOrigin))
                  (camera_position (updateCamera Scene.wallBehind atOrigin))
       = distance hit - 0.2.
Proof.
  destruct cameraIntersects_wallBehind as (hit & Hhit & Hdist).
  exists hit; split; [exact Hhit|].
  apply (proj1 (proj1 (updateCamera_occlusion Scene.wallBehind atOrigin eq_refl) hit [] Hhit)).
  rewrite Hdist; pose proof sqrt_10_bounds; lra.
Defined.


(** * Further properties of the script *)

(** ** Definitions *)

(** W and A down; W alone; D alone. *)
Definition diagonalKeys : Keys.t := Keys.mk true false true false false.
Definition forwardKeys : Keys.t := Keys.mk true false false false false.
Definition rightKeys : Keys.t := Keys.mk false false false true false.

(** The player as the step has it when it integrates: after the velocity,
    jump and gravity blocks. *)
Definition playerBeforeMove (delta : R) (w : World) : Player.t :=
  applyGravity delta
    (player (updateJump (set_player w (fst (updateVelocity (keys w) (player w)))))).

(** The position the step hands to the collision resolver. *)
Definition tentativePosition (delta : R) (w : World) : Vector3 :=
  integrate delta (playerBeforeMove delta w).

(** The distance between two points, seen from above. *)
Definition horizontalDistance (a b : Vector3) : R :=
  sqrt ((x a - x b) * (x a - x b) + (z a - z b) * (z a - z b)).

(** Equality of key codes. *)
Definition keyCode_eqb (a b : KeyCode) : bool :=
  match a, b with
  | KeyW, KeyW | KeyS, KeyS | KeyA, KeyA | KeyD, KeyD
  | Space, Space | OtherKey, OtherKey => true
  | _, _ => false
  end.

(** The flag of [keys] that a key code drives; none for other keys. *)
Definition keyFlag (code : KeyCode) (k : Keys.t) : bool :=
  match code with
  | KeyW => Keys.forward k
  | KeyS => Keys.backward k
  | KeyA => Keys.left k
  | KeyD => Keys.right k
  | Space => Keys.jump k
  | OtherKey => false
  end.

(** Whether the key is down according to the key events alone: the kind of
    the last event for [code], or [start] when there is none. *)
Definition heldAfter (code : KeyCode) (start : bool) (events : list Event) : bool :=
  fold_left
    (fun held e =>
       match e with
       | KeyDown c => if keyCode_eqb c code then true else held
       | KeyUp c => if keyCode_eqb c code then false else held
       | _ => held
       end)
    events start.

(** The four movement keys. *)
Definition isDirectionKey (code : KeyCode) : bool :=
  match code with
  | KeyW | KeyS | KeyA | KeyD => true
  | _ => false
  end.

(** Sum of [movementX] over the mouse moves made with the pointer locked. *)
Fixpoint lockedMovementX (events : list Event) : R :=
  match events with
  | [] => 0
  | MouseMove true mx _ :: rest => mx + lockedMovementX rest
  | _ :: rest => lockedMovementX rest
  end.

(** No mouse move and no frame of the list happens with the pointer locked. *)
Definition allUnlocked (events : list Event) : bool :=
  forallb (fun e => match e with
                    | MouseMove locked _ _ => negb locked
                    | Frame locked _ => negb locked
                    | _ => true
                    end) events.

(** A grounded player at rest with the feet 0.4 above height 0. *)
Definition floating : Player.t :=
  Player.mk (mkVector3 0 0.4 0) (mkVector3 0 0 0) 0 0 true false false.

(** A grounded player has no vertical velocity. *)
Definition groundedAtRest (p : Player.t) : Prop :=
  Player.isGrounded p = true -> y (Player.velocity p) = 0.

(** A single wall: the plane x = c. *)
Definition wallAt (c : R) : RayQuery := Scene.intersectPlanes [Scene.mkPlane Scene.AxisX c].


(** A corner: the walls x = c and z = d. *)
Definition cornerAt (c d : R) : RayQuery :=
  Scene.intersectPlanes [Scene.mkPlane Scene.AxisX c; Scene.mkPlane Scene.AxisZ d].

(** Where the resolver leaves a coordinate [a] next to a wall at [c]:
    unchanged when farther than the radius, else at the radius on its
    side. *)
Definition pushedFrom (c a : R) : R :=
  if Rle_dec 0 (c - a)
  then if Rle_dec (c - a) 0.3 then c - 0.3 else a
  else if Rle_dec (a - c) 0.3 then c + 0.3 else a.

(** ** Moving under input *)

Lemma applyAxisAngle_yaw (v : Vector3) (angle : R) :
  applyAxisAngle v (mkVector3 0 1 0) angle
  = mkVector3 (x v * cos angle + z v * sin angle)
              (y v)
              (z v * cos angle - x v * sin angle).
Proof.
  unfold applyAxisAngle, setFromAxisAngle, applyQuaternion; cbn.
  assert (Hs : sin angle = 2 * sin (angle / 2) * cos (angle / 2))
    by (rewrite <- sin_2a; f_equal; lra).
  assert (Hc : cos angle = 1 - 2 * sin (angle / 2) * sin (angle / 2))
    by (rewrite <- cos_2a_sin; f_equal; lra).
  rewrite Hs, Hc; apply vector3_eq; cbn; ring.
Qed.

Lemma moveDirection_y (k : Keys.t) : y (moveDirection k) = 0.
Proof. rewrite moveDirection_cases; reflexivity. Qed.

Lemma normalize_y (v : Vector3) : y v = 0 -> y (normalize v) = 0.
Proof. intros H; unfold normalize, divideScalar; cbn; rewrite H; lra. Qed.

Lemma horizontalSpeed_unit (v : Vector3) :
  y v = 0 -> lengthSq v = 1 -> horizontalSpeed v = 1.
Proof.
  intros Hy Hl; unfold horizontalSpeed, lengthSq in *; rewrite Hy in Hl.
  replace (x v * x v + z v * z v) with 1 by lra; apply sqrt_1.
Qed.

Lemma horizontalSpeed_yaw (v : Vector3) (angle : R) :
  horizontalSpeed (applyAxisAngle v (mkVector3 0 1 0) angle) = horizontalSpeed v.
Proof.
  rewrite applyAxisAngle_yaw; unfold horizontalSpeed; cbn; f_equal.
  pose proof (sin2_cos2 angle) as H; unfold Rsqr in H.
  replace ((x v * cos angle + z v * sin angle) * (x v * cos angle + z v * sin angle)
           + (z v * cos angle - x v * sin angle) * (z v * cos angle - x v * sin angle))
    with ((x v * x v + z v * z v) * (sin angle * sin angle + cos angle * cos angle)) by ring.
  rewrite H; ring.
Qed.

Lemma horizontalSpeed_times (v v' : Vector3) (s : R) :
  0 <= s -> x v' = x v * s -> z v' = z v * s ->
  horizontalSpeed v' = s * horizontalSpeed v.
Proof.
  intros Hs Hx Hz; unfold horizontalSpeed; rewrite Hx, Hz.
  replace (x v * s * (x v * s) + z v * s * (z v * s))
    with ((s * s) * (x v * x v + z v * z v)) by ring.
  rewrite sqrt_mult by nra.
  rewrite sqrt_square by exact Hs; reflexivity.
Qed.

Lemma updateVelocity_moving (k : Keys.t) (p : Player.t) :
  ~ noNetInput k ->
  fst (updateVelocity k p)
  = let dir := applyAxisAngle (normalize (moveDirection k)) (mkVector3 0 1 0)
                              (Player.rotation p) in
    Player.set_velocity (Player.set_isMoving p true)
      (mkVector3 (x dir * CONFIG.moveSpeed) (y (Player.velocity p))
                 (z dir * CONFIG.moveSpeed)).
Proof.
  intros Hmove; destruct (updateVelocity_moves k p Hmove) as [_ Hpos].
  unfold updateVelocity; cbv zeta; rewrite (JS_gt_true _ 0 Hpos); reflexivity.
Qed.

Lemma moving_horizontalSpeed (k : Keys.t) (p : Player.t) :
  ~ noNetInput k ->
  horizontalSpeed (Player.velocity (fst (updateVelocity k p))) = CONFIG.moveSpeed.
Proof.
  intros Hmove.
  destruct (updateVelocity_moves k p Hmove) as [_ Hpos].
  rewrite (updateVelocity_moving k p Hmove); cbv zeta; cbn [Player.velocity Player.set_velocity].
  rewrite (horizontalSpeed_times
             (applyAxisAngle (normalize (moveDirection k)) (mkVector3 0 1 0) (Player.rotation p))
             _ CONFIG.moveSpeed);
    [| unfold CONFIG.moveSpeed; lra | reflexivity | reflexivity].
  rewrite horizontalSpeed_yaw, horizontalSpeed_unit; [lra | |].
  - apply normalize_y, moveDirection_y.
  - apply normalize_unit; exact Hpos.
Qed.

(** X1: with net directional input the velocity block sets the horizontal
    speed to exactly the move speed, whatever the keys (a diagonal is not
    faster) and whatever the yaw; the velocity is the normalized key
    direction turned by the yaw about the vertical axis; the vertical
    velocity is untouched and the moving flag is set. *)
Theorem moving_speed_is_moveSpeed (k : Keys.t) (p : Player.t) :
  ~ noNetInput k ->
  let p' := fst (updateVelocity k p) in
  horizontalSpeed (Player.velocity p') = CONFIG.moveSpeed
  /\ Player.isMoving p' = true
  /\ y (Player.velocity p') = y (Player.velocity p)
  /\ forall yaw,
       Player.rotation p = yaw ->
       x (Player.velocity p')
       = CONFIG.moveSpeed
         * (x (normalize (moveDirection k)) * cos yaw
            + z (normalize (moveDirection k)) * sin yaw)
       /\ z (Player.velocity p')
          = CONFIG.moveSpeed
            * (z (normalize (moveDirection k)) * cos yaw
               - x (normalize (moveDirection k)) * sin yaw).
Proof.
  intros Hmove; cbv zeta.
  split; [apply moving_horizontalSpeed; exact Hmove|].
  rewrite (updateVelocity_moving k p Hmove); cbv zeta;
    cbn [Player.velocity Player.set_velocity Player.isMoving Player.set_isMoving y].
  split; [reflexivity|split; [reflexivity|]].
  intros yaw <-; rewrite applyAxisAngle_yaw; cbn; split; ring.
Qed.

Lemma moving_speed_is_moveSpeed_diagonal :
  horizontalSpeed (Player.velocity (fst (updateVelocity diagonalKeys Player.initial)))
  = CONFIG.moveSpeed.
Proof.
  apply (moving_speed_is_moveSpeed diagonalKeys Player.initial).
  intros [H _]; discriminate H.
Defined.

Lemma normalize_of_unit (v : Vector3) : lengthSq v = 1 -> normalize v = v.
Proof.
  intros H; unfold normalize, length; rewrite H, sqrt_1.
  unfold JS.or_num; destruct (Req_dec_T 1 0); [lra|].
  apply vector3_eq; cbn; lra.
Qed.

(** X2: the controls are relative to the camera.  With W alone (A and D
    cancelling) the horizontal velocity is the move speed along
    (-sin yaw, -cos yaw), opposite to the camera's horizontal offset from
    the character; with D alone (W and S cancelling) it is the move speed
    along (cos yaw, -sin yaw), at a right angle to that offset. *)
Theorem controls_relative_to_camera (k : Keys.t) (p : Player.t) :
  let v' := Player.velocity (fst (updateVelocity k p)) in
  (Keys.forward k = true -> Keys.backward k = false -> Keys.left k = Keys.right k ->
   x v' = - CONFIG.moveSpeed * sin (Player.rotation p)
   /\ z v' = - CONFIG.moveSpeed * cos (Player.rotation p)
   /\ x v' * CONFIG.cameraDistance = - CONFIG.moveSpeed * x (cameraOffset p)
   /\ z v' * CONFIG.cameraDistance = - CONFIG.moveSpeed * z (cameraOffset p))
  /\ (Keys.right k = true -> Keys.left k = false -> Keys.forward k = Keys.backward k ->
      x v' = CONFIG.moveSpeed * cos (Player.rotation p)
      /\ z v' = - CONFIG.moveSpeed * sin (Player.rotation p)
      /\ x v' * CONFIG.cameraDistance = CONFIG.moveSpeed * z (cameraOffset p)
      /\ z v' * CONFIG.cameraDistance = - CONFIG.moveSpeed * x (cameraOffset p)).
Proof.
  cbv zeta; split.
  - intros Hf Hb Hlr.
    assert (Hdir : moveDirection k = mkVector3 0 0 (-1)).
    { rewrite moveDirection_cases, Hf, Hb, Hlr.
      destruct (Keys.right k); apply vector3_eq; cbn; lra. }
    assert (Hmove : ~ noNetInput k) by (intros [H _]; congruence).
    rewrite (updateVelocity_moving k p Hmove), Hdir; cbv zeta.
    rewrite normalize_of_unit by (unfold lengthSq; cbn; lra).
    rewrite applyAxisAngle_yaw; cbn.
    unfold CONFIG.moveSpeed, CONFIG.cameraDistance; repeat split; lra.
  - intros Hr Hl Hfb.
    assert (Hdir : moveDirection k = mkVector3 1 0 0).
    { rewrite moveDirection_cases, Hr, Hl, Hfb.
      destruct (Keys.backward k); apply vector3_eq; cbn; lra. }
    assert (Hmove : ~ noNetInput k) by (intros [_ H]; congruence).
    rewrite (updateVelocity_moving k p Hmove), Hdir; cbv zeta.
    rewrite normalize_of_unit by (unfold lengthSq; cbn; lra).
    rewrite applyAxisAngle_yaw; cbn.
    unfold CONFIG.moveSpeed, CONFIG.cameraDistance; repeat split; lra.
Qed.

Lemma controls_relative_to_camera_forward :
  x (Player.velocity (fst (updateVelocity forwardKeys Player.initial)))
  = - CONFIG.moveSpeed * sin (Player.rotation Player.initial)
  /\ z (Player.velocity (fst (updateVelocity forwardKeys Player.initial)))
     = - CONFIG.moveSpeed * cos (Player.rotation Player.initial)
  /\ x (Player.velocity (fst (updateVelocity forwardKeys Player.initial)))
     * CONFIG.cameraDistance
     = - CONFIG.moveSpeed * x (cameraOffset Player.initial)
  /\ z (Player.velocity (fst (updateVelocity forwardKeys Player.initial)))
     * CONFIG.cameraDistance
     = - CONFIG.moveSpeed * z (cameraOffset Player.initial).
Proof.
  exact (proj1 (controls_relative_to_camera forwardKeys Player.initial)
               eq_refl eq_refl eq_refl).
Defined.

(** ** The speed bound *)

Lemma updatePlayer_beforeReset_tentative (q : RayQuery) (delta : R) (w : World) :
  player (fst (updatePlayer_beforeReset q delta w))
  = checkGround q (Player.set_position (playerBeforeMove delta w)
                     (checkCollision q (tentativePosition delta w))).
Proof. rewrite updatePlayer_beforeReset_unfold; reflexivity. Qed.

Lemma playerBeforeMove_horizontal (delta : R) (w : World) :
  x (Player.velocity (playerBeforeMove delta w))
  = x (Player.velocity (fst (updateVelocity (keys w) (player w))))
  /\ z (Player.velocity (playerBeforeMove delta w))
     = z (Player.velocity (fst (updateVelocity (keys w) (player w))))
  /\ Player.position (playerBeforeMove delta w) = Player.position (player w).
Proof.
  unfold playerBeforeMove.
  set (w0 := set_player w (fst (updateVelocity (keys w) (player w)))).
  destruct (applyGravity_frame delta (player (updateJump w0)))
    as (_ & _ & _ & _ & -> & -> & ->).
  destruct (updateJump_frame w0) as (_ & _ & _ & -> & -> & -> & _).
  subst w0; cbn [player set_player].
  destruct (updateVelocity_frame (keys w) (player w)) as (_ & _ & _ & -> & _).
  repeat split; reflexivity.
Qed.

Lemma horizontalSpeed_congr (v v' : Vector3) :
  x v' = x v -> z v' = z v -> horizontalSpeed v' = horizontalSpeed v.
Proof. intros Hx Hz; unfold horizontalSpeed; rewrite Hx, Hz; reflexivity. Qed.

Lemma updateVelocity_speed_bound (k : Keys.t) (p : Player.t) :
  horizontalSpeed (Player.velocity p) <= CONFIG.moveSpeed ->
  horizontalSpeed (Player.velocity (fst (updateVelocity k p))) <= CONFIG.moveSpeed.
Proof.
  intros Hb.
  destruct (noNetInput_dec k) as [Hno|Hmove].
  - rewrite (updateVelocity_decelerates k p Hno); cbn [fst Player.velocity Player.set_velocity].
    rewrite (horizontalSpeed_scaled (Player.velocity p)) by reflexivity.
    pose proof (horizontalSpeed_nonneg (Player.velocity p)); lra.
  - rewrite (moving_horizontalSpeed k p Hmove); lra.
Qed.

Lemma updatePlayer_speed_bound (q : RayQuery) (delta : R) (w : World) :
  horizontalSpeed (Player.velocity (player w)) <= CONFIG.moveSpeed ->
  horizontalSpeed (Player.velocity (player (updatePlayer q delta w))) <= CONFIG.moveSpeed.
Proof.
  intros Hb.
  rewrite updatePlayer_unfold; cbv zeta; cbn [player set_player].
  fold (playerBeforeMove delta w).
  destruct (preventFalling_velocity (moveAndGround q delta (playerBeforeMove delta w)))
    as [-> | ->].
  - destruct (moveAndGround_frame q delta (playerBeforeMove delta w))
      as (_ & _ & _ & Hx & Hz).
    destruct (playerBeforeMove_horizontal delta w) as (Hx' & Hz' & _).
    rewrite (horizontalSpeed_congr (Player.velocity (fst (updateVelocity (keys w) (player w)))))
      by congruence.
    apply updateVelocity_speed_bound; exact Hb.
  - rewrite horizontalSpeed_zero by reflexivity; unfold CONFIG.moveSpeed; lra.
Qed.

Lemma handle_speed_bound (q : RayQuery) (w : World) (e : Event) :
  horizontalSpeed (Player.velocity (player w)) <= CONFIG.moveSpeed ->
  horizontalSpeed (Player.velocity (player (handle q w e))) <= CONFIG.moveSpeed.
Proof.
  intros Hb.
  destruct e as [code|code|locked mx my|locked clockDelta]; cbn [handle player set_keys set_player].
  - exact Hb.
  - exact Hb.
  - unfold mousemove; destruct (negb locked); exact Hb.
  - destruct (animate_unfold q locked clockDelta w) as [-> _].
    destruct (snoopy w && locked); [|exact Hb].
    apply updatePlayer_speed_bound; exact Hb.
Qed.

Lemma tentative_horizontal_step (delta : R) (w : World) :
  0 <= delta ->
  horizontalDistance (tentativePosition delta w) (Player.position (player w))
  = delta * horizontalSpeed (Player.velocity (fst (updateVelocity (keys w) (player w)))).
Proof.
  intros Hd.
  destruct (playerBeforeMove_horizontal delta w) as (Hx & Hz & Hpos).
  unfold horizontalDistance, tentativePosition, integrate; cbn [x z].
  rewrite Hx, Hz, Hpos.
  set (v := Player.velocity (fst (updateVelocity (keys w) (player w)))).
  set (pos := Player.position (player w)).
  unfold horizontalSpeed.
  replace ((x pos + x v * delta - x pos) * (x pos + x v * delta - x pos)
           + (z pos + z v * delta - z pos) * (z pos + z v * delta - z pos))
    with ((delta * delta) * (x v * x v + z v * z v)) by ring.
  rewrite sqrt_mult by nra.
  rewrite sqrt_square by exact Hd; reflexivity.
Qed.

(** X3: the horizontal speed never exceeds the move speed: if it does not
    at the start, it does not after any run of events.  Hence a step with a
    delta of at most 0.1 (the cap of the frame loop) moves the tentative
    position by at most 0.25 horizontally, less than the collision
    radius. *)
Theorem horizontal_speed_bounded (q : RayQuery) (w : World) :
  horizontalSpeed (Player.velocity (player w)) <= CONFIG.moveSpeed ->
  (forall events,
     horizontalSpeed (Player.velocity (player (run q w events))) <= CONFIG.moveSpeed)
  /\ (forall delta,
        0 <= delta <= 0.1 ->
        horizontalDistance (tentativePosition delta w) (Player.position (player w)) <= 0.25
        /\ 0.25 < CONFIG.collisionRadius).
Proof.
  intros Hb; split.
  - intros events; revert w Hb.
    induction events as [|e events IH]; intros w Hb; cbn [run fold_left]; [exact Hb|].
    apply IH, handle_speed_bound; exact Hb.
  - intros delta [Hd0 Hd1]; split; [|unfold CONFIG.collisionRadius; lra].
    rewrite tentative_horizontal_step by exact Hd0.
    pose proof (updateVelocity_speed_bound (keys w) (player w) Hb) as Hv.
    pose proof (horizontalSpeed_nonneg
                  (Player.velocity (fst (updateVelocity (keys w) (player w))))) as H0.
    unfold CONFIG.moveSpeed in Hv; nra.
Qed.

Lemma horizontal_speed_bounded_sliding :
  (forall events,
     horizontalSpeed (Player.velocity (player (run Scene.empty sliding events)))
     <= CONFIG.moveSpeed)
  /\ (forall delta,
        0 <= delta <= 0.1 ->
        horizontalDistance (tentativePosition delta sliding)
                           (Player.position (player sliding)) <= 0.25
        /\ 0.25 < CONFIG.collisionRadius).
Proof.
  apply (horizontal_speed_bounded Scene.empty sliding).
  unfold horizontalSpeed, CONFIG.moveSpeed; cbn.
  replace (2.5 * 2.5 + 0 * 0) with (2.5 * 2.5) by lra.
  rewrite sqrt_square by lra; lra.
Defined.

(** ** Keys and mouse *)

Lemma updatePlayer_direction_flag (q : RayQuery) (delta : R) (w : World) (code : KeyCode) :
  isDirectionKey code = true ->
  keyFlag code (keys (updatePlayer q delta w)) = keyFlag code (keys w).
Proof.
  intros Hc; destruct (updatePlayer_keys q delta w) as (H1 & H2 & H3 & H4).
  destruct code; cbn in Hc |- *; try discriminate; assumption.
Qed.

Lemma handle_direction_flag (q : RayQuery) (w : World) (e : Event) (code : KeyCode) :
  isDirectionKey code = true ->
  keyFlag code (keys (handle q w e))
  = match e with
    | KeyDown c => if keyCode_eqb c code then true else keyFlag code (keys w)
    | KeyUp c => if keyCode_eqb c code then false else keyFlag code (keys w)
    | _ => keyFlag code (keys w)
    end.
Proof.
  intros Hc.
  destruct e as [c|c|locked mx my|locked clockDelta]; cbn [handle keys set_keys set_player].
  - destruct c, code; cbn in Hc |- *; try discriminate; reflexivity.
  - destruct c, code; cbn in Hc |- *; try discriminate; reflexivity.
  - reflexivity.
  - destruct (animate_unfold q locked clockDelta w) as [_ ->].
    destruct (snoopy w && locked); [|reflexivity].
    apply updatePlayer_direction_flag; exact Hc.
Qed.

Lemma handle_jump_flag (q : RayQuery) (w : World) (e : Event) :
  Keys.jump (keys (handle q w e)) = true ->
  match e with
  | KeyDown c => if keyCode_eqb c Space then true else Keys.jump (keys w)
  | KeyUp c => if keyCode_eqb c Space then false else Keys.jump (keys w)
  | _ => Keys.jump (keys w)
  end = true.
Proof.
  destruct e as [c|c|locked mx my|locked clockDelta]; cbn [handle keys set_keys set_player].
  - destruct c; cbn; trivial.
  - destruct c; cbn; trivial.
  - trivial.
  - destruct (animate_unfold q locked clockDelta w) as [_ ->].
    destruct (snoopy w && locked); [|trivial].
    rewrite updatePlayer_jump_key; intros H; apply andb_prop in H; tauto.
Qed.

Lemma bool_le_of_imp (a b : bool) : (a = true -> b = true) -> Bool.le a b.
Proof. destruct a; cbn; [intros H; exact (H eq_refl) | trivial]. Qed.

Lemma heldAfter_false_start (code : KeyCode) (events : list Event) (a b : bool) :
  Bool.le a b -> Bool.le (heldAfter code a events) (heldAfter code b events).
Proof.
  revert a b; unfold heldAfter.
  induction events as [|e events IH]; intros a b Hab; cbn [fold_left]; [exact Hab|].
  apply IH.
  destruct e as [c|c|? ? ?|? ?]; try exact Hab;
    destruct (keyCode_eqb c code); try exact Hab; cbn; trivial.
Qed.

(** X4: along any run, each movement key's flag is what the last key-down
    or key-up event for that key left (its starting value if there was
    none): frames and mouse moves never touch it.  The jump flag can only be
    set if the key events alone leave Space down: a step clears it, nothing
    but a key-down sets it. *)
Theorem keys_follow_last_event (q : RayQuery) (w : World) (events : list Event) :
  (forall code,
     isDirectionKey code = true ->
     keyFlag code (keys (run q w events)) = heldAfter code (keyFlag code (keys w)) events)
  /\ (Keys.jump (keys (run q w events)) = true ->
      heldAfter Space (Keys.jump (keys w)) events = true).
Proof.
  split.
  - intros code Hc; revert w.
    induction events as [|e events IH]; intros w; cbn [run fold_left heldAfter]; [reflexivity|].
    fold (run q (handle q w e) events).
    rewrite (IH (handle q w e)), (handle_direction_flag q w e code Hc).
    unfold heldAfter; cbn [fold_left]; reflexivity.
  - revert w.
    induction events as [|e events IH]; intros w; cbn [run fold_left heldAfter]; [trivial|].
    fold (run q (handle q w e) events).
    intros H; specialize (IH (handle q w e) H).
    pose proof (heldAfter_false_start Space events _ _
                  (bool_le_of_imp _ _ (handle_jump_flag q w e))) as Hmono.
    unfold heldAfter in *; cbn [fold_left].
    rewrite IH in Hmono; exact Hmono.
Qed.

Lemma updatePlayer_rotation (q : RayQuery) (delta : R) (w : World) :
  Player.rotation (player (updatePlayer q delta w)) = Player.rotation (player w).
Proof.
  rewrite updatePlayer_unfold; cbv zeta; cbn [player set_player].
  set (w1 := updateJump (set_player w (fst (updateVelocity (keys w) (player w))))).
  destruct (preventFalling_frame (moveAndGround q delta (applyGravity delta (player w1))))
    as (-> & _).
  destruct (moveAndGround_frame q delta (applyGravity delta (player w1))) as (-> & _).
  destruct (applyGravity_frame delta (player w1)) as (-> & _).
  subst w1.
  destruct (updateJump_frame (set_player w (fst (updateVelocity (keys w) (player w)))))
    as (-> & _).
  cbn [player set_player].
  destruct (updateVelocity_frame (keys w) (player w)) as (-> & _); reflexivity.
Qed.

(** X5: the yaw is the starting yaw minus the sensitivity times the sum of
    the horizontal mouse movements made while the pointer is locked; it is
    never clamped, and keys, frames and unlocked mouse moves leave it
    alone. *)
Theorem yaw_accumulates (q : RayQuery) (w : World) (events : list Event) :
  Player.rotation (player (run q w events))
  = Player.rotation (player w) - CONFIG.cameraSensitivity * lockedMovementX events.
Proof.
  revert w; induction events as [|e events IH]; intros w; cbn [run fold_left lockedMovementX].
  - lra.
  - fold (run q (handle q w e) events); rewrite IH.
    destruct e as [c|c|locked mx my|locked clockDelta]; cbn [handle player set_keys set_player].
    + reflexivity.
    + reflexivity.
    + destruct locked; unfold mousemove; cbn; lra.
    + destruct (animate_unfold q locked clockDelta w) as [-> _].
      destruct (snoopy w && locked); [rewrite updatePlayer_rotation|]; reflexivity.
Qed.

(** X6: a locked mouse move adds the vertical movement times the
    sensitivity to the pitch and saturates: the sum itself when it lies in
    [-PI/3, PI/3], PI/3 when it is above, -PI/3 when it is below.  An
    unlocked mouse move changes nothing. *)
Theorem mousemove_pitch_saturates (mx my : R) (p : Player.t) :
  let target := Player.pitch p + my * CONFIG.cameraSensitivity in
  let p' := mousemove true mx my p in
  (- PI / 3 <= target <= PI / 3 -> Player.pitch p' = target)
  /\ (PI / 3 <= target -> Player.pitch p' = PI / 3)
  /\ (target <= - PI / 3 -> Player.pitch p' = - PI / 3)
  /\ mousemove false mx my p = p.
Proof.
  cbv zeta; unfold mousemove; cbn; unfold JS.max, JS.min.
  pose proof PI_RGT_0 as Hpi.
  repeat split.
  - intros [Hlo Hhi]; rewrite Rmin_right by exact Hhi; apply Rmax_right; exact Hlo.
  - intros Hhi; rewrite Rmin_left by exact Hhi; apply Rmax_right; lra.
  - intros Hlo; rewrite Rmin_right by lra; apply Rmax_left; exact Hlo.
Qed.

(** X7: the simulation is paused without pointer lock: a run in which no
    mouse move and no frame happens with the pointer locked leaves the
    player as it was (key events are still recorded).  While the character
    model is not loaded a frame changes nothing at all. *)
Theorem unlocked_run_keeps_player (q : RayQuery) (w : World) (events : list Event) :
  (allUnlocked events = true -> player (run q w events) = player w)
  /\ (snoopy w = false ->
      forall locked clockDelta, animate q locked clockDelta w = w).
Proof.
  split.
  - revert w; induction events as [|e events IH]; intros w Hall; cbn [run fold_left]; [reflexivity|].
    cbn [allUnlocked forallb] in Hall; apply andb_prop in Hall; destruct Hall as [He Hall].
    fold (run q (handle q w e) events); rewrite (IH _ Hall).
    destruct e as [c|c|locked mx my|locked clockDelta]; cbn [handle player set_keys set_player].
    + reflexivity.
    + reflexivity.
    + unfold mousemove; rewrite He; reflexivity.
    + destruct (animate_unfold q locked clockDelta w) as [-> _].
      apply negb_true_iff in He; rewrite He, andb_false_r; reflexivity.
  - intros Hs locked clockDelta; unfold animate; cbv zeta.
    rewrite Hs; cbn [andb]; unfold updateCamera; rewrite Hs; reflexivity.
Qed.

Lemma keys_follow_last_event_tap :
  keyFlag KeyW (keys (run Scene.empty atOrigin
                          [KeyDown KeyW; Frame true 0.016; KeyUp KeyW; Frame true 0.016]))
  = heldAfter KeyW (keyFlag KeyW (keys atOrigin))
              [KeyDown KeyW; Frame true 0.016; KeyUp KeyW; Frame true 0.016].
Proof.
  exact (proj1 (keys_follow_last_event Scene.empty atOrigin
                  [KeyDown KeyW; Frame true 0.016; KeyUp KeyW; Frame true 0.016])
               KeyW eq_refl).
Defined.

Lemma mousemove_pitch_saturates_up :
  Player.pitch (mousemove true 0 1000 Player.initial) = PI / 3.
Proof.
  apply (proj1 (proj2 (mousemove_pitch_saturates 0 1000 Player.initial))).
  cbn; unfold CONFIG.cameraSensitivity.
  pose proof PI_4 as H4; lra.
Defined.

Lemma unlocked_run_keeps_player_paused :
  player (run Scene.floor standing [Frame false 0.016; MouseMove false 5 5; KeyDown KeyW])
  = player standing.
Proof.
  exact (proj1 (unlocked_run_keeps_player Scene.floor standing
                  [Frame false 0.016; MouseMove false 5 5; KeyDown KeyW])
               eq_refl).
Defined.

(** ** Ground contact *)

Lemma checkGround_cases (q : RayQuery) (p : Player.t) :
  (exists hit rest,
     groundHits q p = hit :: rest
     /\ checkGround q p
        = Player.set_isGrounded
            (Player.set_velocity
               (Player.set_position p (set_y (Player.position p) (y (point hit) + 0.01)))
               (set_y (Player.velocity p) 0))
            true)
  \/ checkGround q p = Player.set_isGrounded p false
  \/ (checkGround q p = p /\ groundHits q p <> [] /\ y (Player.velocity p) <= 0).
Proof.
  destruct (groundHits q p) as [|hit rest] eqn:Hhits.
  - right; left; apply checkGround_no_hit; exact Hhits.
  - destruct (JS.le (y (Player.position p) - y (point hit)) 0.15
              && JS.le (y (Player.velocity p)) 0) eqn:Hsnap.
    + left; exists hit, rest; split; [reflexivity|].
      apply (checkGround_snap q p hit rest Hhits Hsnap).
    + right; rewrite (checkGround_no_snap q p hit rest Hhits Hsnap).
      destruct (JS.gt (y (Player.velocity p)) 0) eqn:Hgt; [left; reflexivity|].
      right; split; [reflexivity|]; split; [discriminate|].
      destruct (Rle_lt_dec (y (Player.velocity p)) 0) as [H|H]; [exact H|].
      rewrite (JS_gt_true _ _ H) in Hgt; discriminate.
Qed.

Lemma checkGround_groundedAtRest (q : RayQuery) (p : Player.t) :
  groundedAtRest p -> groundedAtRest (checkGround q p).
Proof.
  intros Hp; unfold groundedAtRest.
  destruct (checkGround_cases q p) as [(hit & rest & _ & ->) | [-> | (-> & _)]]; cbn.
  - reflexivity.
  - discriminate.
  - exact Hp.
Qed.

Lemma updatePlayer_groundedAtRest (q : RayQuery) (delta : R) (w : World) :
  groundedAtRest (player w) -> groundedAtRest (player (updatePlayer q delta w)).
Proof.
  intros Hp.
  rewrite updatePlayer_unfold; cbv zeta; cbn [player set_player].
  set (w0 := set_player w (fst (updateVelocity (keys w) (player w)))).
  assert (H0 : groundedAtRest (player w0)).
  { subst w0; cbn [player set_player]; unfold groundedAtRest.
    destruct (updateVelocity_frame (keys w) (player w)) as (_ & _ & -> & _ & ->); exact Hp. }
  assert (H1 : groundedAtRest (player (updateJump w0))).
  { unfold updateJump.
    destruct (Keys.jump (keys w0) && Player.isGrounded (player w0)); [|exact H0].
    unfold groundedAtRest; cbn; discriminate. }
  assert (H2 : groundedAtRest (applyGravity delta (player (updateJump w0)))).
  { unfold applyGravity.
    destruct (Player.isGrounded (player (updateJump w0))) eqn:Hg; cbn [negb]; [exact H1|].
    unfold groundedAtRest; cbn; rewrite Hg; discriminate. }
  assert (H3 : groundedAtRest (moveAndGround q delta (applyGravity delta (player (updateJump w0))))).
  { unfold moveAndGround; apply checkGround_groundedAtRest; exact H2. }
  unfold preventFalling; destruct (JS.lt _ _); [|exact H3].
  unfold groundedAtRest; cbn; reflexivity.
Qed.

(** X8: a grounded player has no vertical velocity: if that holds at the
    start it holds after any run of events (a snap zeroes the velocity, a
    jump and a missing ground clear the flag, gravity only acts while the
    flag is clear). *)
Theorem grounded_means_no_vertical_velocity (q : RayQuery) (w : World) (events : list Event) :
  (Player.isGrounded (player w) = true -> y (Player.velocity (player w)) = 0) ->
  Player.isGrounded (player (run q w events)) = true ->
  y (Player.velocity (player (run q w events))) = 0.
Proof.
  revert w; induction events as [|e events IH]; intros w Hp; cbn [run fold_left]; [exact Hp|].
  apply IH.
  destruct e as [c|c|locked mx my|locked clockDelta]; cbn [handle player set_keys set_player].
  - exact Hp.
  - exact Hp.
  - unfold mousemove; destruct (negb locked); exact Hp.
  - destruct (animate_unfold q locked clockDelta w) as [-> _].
    destruct (snoopy w && locked); [|exact Hp].
    apply updatePlayer_groundedAtRest; exact Hp.
Qed.

Lemma groundHits_floor_out (p : Player.t) :
  y (Player.position p) < -0.5 \/ 0.5 < y (Player.position p) ->
  groundHits Scene.floor p = [].
Proof.
  intros Hy; unfold groundHits; cbv zeta.
  unfold Scene.floor, Scene.intersectPlanes; cbn [Scene.hits].
  unfold Scene.hitPlane; cbn [Scene.coord Scene.axis Scene.offset Scene.within y].
  destruct (Req_dec_T (-1) 0); [lra|].
  destruct Hy as [Hy|Hy].
  - rewrite (JS_le_false 0) by lra; reflexivity.
  - rewrite (JS_le_true 0) by lra; rewrite JS_le_false by lra; reflexivity.
Qed.

Lemma checkGround_floor_snap (p : Player.t) :
  -0.5 <= y (Player.position p) <= 0.15 ->
  y (Player.velocity p) <= 0 ->
  checkGround Scene.floor p
  = Player.set_isGrounded
      (Player.set_velocity
         (Player.set_position p (set_y (Player.position p) 0.01))
         (set_y (Player.velocity p) 0))
      true.
Proof.
  intros Hy Hvy.
  destruct (groundHits_floor p) as (hit & Hhit & Hy0); [lra|].
  rewrite (checkGround_snap Scene.floor p hit [] Hhit)
    by (rewrite Hy0, !JS_le_true by lra; reflexivity).
  rewrite Hy0; replace (0 + 0.01) with 0.01 by lra; reflexivity.
Qed.

Lemma checkGround_floor_keep (p : Player.t) :
  0.15 < y (Player.position p) <= 0.5 ->
  y (Player.velocity p) <= 0 ->
  checkGround Scene.floor p = p.
Proof.
  intros Hy Hvy.
  destruct (groundHits_floor p) as (hit & Hhit & Hy0); [lra|].
  rewrite (checkGround_no_snap Scene.floor p hit [] Hhit)
    by (rewrite Hy0, JS_le_false by lra; reflexivity).
  rewrite JS_gt_false by exact Hvy; reflexivity.
Qed.

(** X9: the ground check over a floor at height 0, by the height h of the
    feet and the vertical velocity.  Outside [-0.5, 0.5] the ray misses and
    the flag is cleared; inside, a rising player has the flag cleared; a
    player that is not rising is snapped to 0.01 with zero vertical velocity
    when h <= 0.15, and is left exactly as it is, flag included, when
    0.15 < h <= 0.5. *)
Theorem checkGround_floor_table (p : Player.t) :
  let h := y (Player.position p) in
  let vy := y (Player.velocity p) in
  ((h < -0.5 \/ 0.5 < h) -> checkGround Scene.floor p = Player.set_isGrounded p false)
  /\ (-0.5 <= h <= 0.5 -> 0 < vy ->
      checkGround Scene.floor p = Player.set_isGrounded p false)
  /\ (-0.5 <= h <= 0.15 -> vy <= 0 ->
      checkGround Scene.floor p
      = Player.set_isGrounded
          (Player.set_velocity
             (Player.set_position p (set_y (Player.position p) 0.01))
             (set_y (Player.velocity p) 0))
          true)
  /\ (0.15 < h <= 0.5 -> vy <= 0 -> checkGround Scene.floor p = p).
Proof.
  cbv zeta; repeat split.
  - intros Hy; apply checkGround_no_hit, groundHits_floor_out; exact Hy.
  - intros _ Hvy; apply checkGround_rising; exact Hvy.
  - intros Hy Hvy; apply checkGround_floor_snap; assumption.
  - intros Hy Hvy; apply checkGround_floor_keep; assumption.
Qed.

Lemma floor_horizontal_ray (origin dir : Vector3) (far : Far) :
  y dir = 0 -> Scene.floor origin dir far = [].
Proof.
  intros Hd; unfold Scene.floor, Scene.intersectPlanes; cbn [Scene.hits].
  unfold Scene.hitPlane; cbn [Scene.coord Scene.axis].
  destruct (Req_dec_T (y dir) 0); [reflexivity | contradiction].
Qed.

Lemma checkCollision_floor (pos : Vector3) : checkCollision Scene.floor pos = pos.
Proof.
  unfold checkCollision, directions; cbn [fold_left].
  unfold checkCollision_probe; rewrite !floor_horizontal_ray by reflexivity; reflexivity.
Qed.

Lemma player_eq (a b : Player.t) :
  Player.position a = Player.position b ->
  Player.velocity a = Player.velocity b ->
  Player.rotation a = Player.rotation b ->
  Player.pitch a = Player.pitch b ->
  Player.isGrounded a = Player.isGrounded b ->
  Player.isMoving a = Player.isMoving b ->
  Player.hasJumped a = Player.hasJumped b ->
  a = b.
Proof. destruct a, b; cbn; intros; subst; reflexivity. Qed.

(** X10: a grounded player at rest, with no net input and no jump key,
    stays exactly as it is through a step of any delta, both standing on the
    floor (feet at 0.01) and hovering above it with the feet between 0.15
    and 0.5: there the ground check neither snaps nor clears the flag, so
    gravity never acts. *)
Theorem rest_on_floor_is_fixed (delta : R) (w : World) :
  noNetInput (keys w) ->
  Keys.jump (keys w) = false ->
  Player.isGrounded (player w) = true ->
  Player.isMoving (player w) = false ->
  Player.velocity (player w) = mkVector3 0 0 0 ->
  y (Player.position (player w)) = 0.01
  \/ 0.15 < y (Player.position (player w)) <= 0.5 ->
  updatePlayer Scene.floor delta w = w.
Proof.
  intros Hno Hj Hg Hm Hv Hy.
  rewrite updatePlayer_unfold; cbv zeta.
  rewrite (updateVelocity_decelerates _ _ Hno); cbn [fst].
  rewrite updateJump_idle by (cbn; rewrite Hj; reflexivity).
  cbn [player set_player].
  unfold applyGravity; cbn [Player.isGrounded Player.set_velocity Player.set_isMoving].
  rewrite Hg; cbn [negb].
  unfold moveAndGround; rewrite checkCollision_floor.
  set (p1 := Player.set_position _ _).
  assert (Hp1 : p1 = player w).
  { subst p1; apply player_eq; cbn; try reflexivity; try (symmetry; assumption).
    - rewrite Hv; cbn; apply vector3_eq; cbn; lra.
    - rewrite Hv; cbn; apply vector3_eq; cbn; lra. }
  rewrite Hp1.
  assert (Hcg : checkGround Scene.floor (player w) = player w).
  { destruct Hy as [Hy|Hy].
    - rewrite checkGround_floor_snap by (rewrite ?Hv; cbn; lra).
      apply player_eq; cbn; try reflexivity; try (symmetry; assumption).
      + apply vector3_eq; cbn; lra.
      + rewrite Hv; reflexivity.
    - apply checkGround_floor_keep; [exact Hy | rewrite Hv; cbn; lra]. }
  rewrite Hcg, preventFalling_above by lra.
  destruct w; reflexivity.
Qed.

Lemma grounded_means_no_vertical_velocity_standing :
  y (Player.velocity
       (player (run Scene.floor standing [KeyDown KeyW; MouseMove true 3 4])))
  = 0.
Proof.
  apply (grounded_means_no_vertical_velocity Scene.floor standing
           [KeyDown KeyW; MouseMove true 3 4]).
  - intros _; reflexivity.
  - reflexivity.
Defined.

Lemma checkGround_floor_table_hovering :
  checkGround Scene.floor floating = floating.
Proof.
  apply (proj2 (proj2 (proj2 (checkGround_floor_table floating)))); cbn; lra.
Defined.

Lemma rest_on_floor_is_fixed_floating :
  updatePlayer Scene.floor 0.016 (mkWorld floating Keys.initial (mkVector3 0 0 0) true)
  = mkWorld floating Keys.initial (mkVector3 0 0 0) true.
Proof.
  apply (rest_on_floor_is_fixed 0.016
           (mkWorld floating Keys.initial (mkVector3 0 0 0) true));
    try reflexivity.
  - split; reflexivity.
  - right; cbn; lra.
Defined.

(** ** A single wall *)

Lemma wallAt_parallel (c : R) (origin dir : Vector3) (far : Far) :
  x dir = 0 -> wallAt c origin dir far = [].
Proof.
  intros Hd; unfold wallAt, Scene.intersectPlanes; cbn [Scene.hits].
  unfold Scene.hitPlane; cbn [Scene.coord Scene.axis].
  destruct (Req_dec_T (x dir) 0); [reflexivity | contradiction].
Qed.

Lemma wallAt_hit (c : R) (origin dir : Vector3) (d : R) :
  x dir <> 0 ->
  0 <= (c - x origin) / x dir <= d ->
  exists hit,
    wallAt c origin dir (Bounded d) = [hit]
    /\ distance hit = (c - x origin) / x dir.
Proof.
  intros Hd [H0 H1]; unfold wallAt, Scene.intersectPlanes; cbn [Scene.hits].
  unfold Scene.hitPlane; cbn [Scene.coord Scene.axis Scene.offset Scene.within].
  destruct (Req_dec_T (x dir) 0); [contradiction|].
  rewrite !JS_le_true by assumption; cbn [andb].
  eexists; split; reflexivity.
Qed.

Lemma wallAt_miss (c : R) (origin dir : Vector3) (d : R) :
  (c - x origin) / x dir < 0 \/ d < (c - x origin) / x dir ->
  wallAt c origin dir (Bounded d) = [].
Proof.
  intros H; unfold wallAt, Scene.intersectPlanes; cbn [Scene.hits].
  unfold Scene.hitPlane; cbn [Scene.coord Scene.axis Scene.offset Scene.within].
  destruct (Req_dec_T (x dir) 0); [reflexivity|].
  destruct H as [H|H].
  - rewrite (JS_le_false 0) by exact H; reflexivity.
  - destruct (Rle_lt_dec 0 ((c - x origin) / x dir)) as [H0|H0].
    + rewrite (JS_le_true 0) by exact H0; rewrite JS_le_false by exact H; reflexivity.
    + rewrite (JS_le_false 0) by exact H0; reflexivity.
Qed.

Lemma penetration_wall_plusX (c : R) (pos : Vector3) :
  penetration (wallAt c) pos (mkVector3 1 0 0)
  = if Rle_dec 0 (c - x pos) then if Rle_dec (c - x pos) 0.3 then 0.3 - (c - x pos) else 0
    else 0.
Proof.
  unfold penetration.
  destruct (Rle_dec 0 (c - x pos)) as [H0|H0]; [destruct (Rle_dec (c - x pos) 0.3) as [H1|H1]|].
  - destruct (wallAt_hit c (mkVector3 (x pos) (y pos + 0.5) (z pos)) (mkVector3 1 0 0) 0.3)
      as (hit & -> & ->); cbn; lra.
  - rewrite wallAt_miss; [reflexivity | right; cbn; lra].
  - rewrite wallAt_miss; [reflexivity | left; cbn; lra].
Qed.

Lemma penetration_wall_minusX (c : R) (pos : Vector3) :
  penetration (wallAt c) pos (mkVector3 (-1) 0 0)
  = if Rle_dec 0 (x pos - c) then if Rle_dec (x pos - c) 0.3 then 0.3 - (x pos - c) else 0
    else 0.
Proof.
  unfold penetration.
  destruct (Rle_dec 0 (x pos - c)) as [H0|H0]; [destruct (Rle_dec (x pos - c) 0.3) as [H1|H1]|].
  - destruct (wallAt_hit c (mkVector3 (x pos) (y pos + 0.5) (z pos)) (mkVector3 (-1) 0 0) 0.3)
      as (hit & -> & ->); cbn; lra.
  - rewrite wallAt_miss; [reflexivity | right; cbn; lra].
  - rewrite wallAt_miss; [reflexivity | left; cbn; lra].
Qed.

Lemma penetration_wall_Z (c : R) (pos dir : Vector3) :
  x dir = 0 -> penetration (wallAt c) pos dir = 0.
Proof. intros H; unfold penetration; rewrite wallAt_parallel by exact H; reflexivity. Qed.

Lemma checkCollision_wall_x (c : R) (pos : Vector3) :
  x (checkCollision (wallAt c) pos)
  = if Rle_dec 0 (c - x pos)
    then if Rle_dec (c - x pos) 0.3 then c - 0.3 else x pos
    else if Rle_dec (x pos - c) 0.3 then c + 0.3 else x pos.
Proof.
  unfold checkCollision, directions; cbn [fold_left].
  rewrite !checkCollision_probe_pushback, !pushbackFrom_penetration.
  rewrite (penetration_wall_Z c _ (mkVector3 0 0 1)), (penetration_wall_Z c _ (mkVector3 0 0 (-1)))
      by reflexivity.
  rewrite penetration_wall_plusX.
  cbn [x add multiplyScalar].
  rewrite penetration_wall_minusX; cbn [x add multiplyScalar].
  destruct (Rle_dec 0 (c - x pos)) as [H0|H0]; [destruct (Rle_dec (c - x pos) 0.3) as [H1|H1]|].
  - destruct (Rle_dec 0 _) as [H2|H2]; [lra|]; lra.
  - destruct (Rle_dec 0 _) as [H2|H2]; [|lra].
    destruct (Rle_dec _ 0.3) as [H3|H3]; lra.
  - destruct (Rle_dec 0 _) as [H2|H2]; [|lra].
    destruct (Rle_dec _ 0.3) as [H3|H3]; destruct (Rle_dec (x pos - c) 0.3); lra.
Qed.

Lemma checkCollision_wall_z (c : R) (pos : Vector3) :
  z (checkCollision (wallAt c) pos) = z pos.
Proof.
  unfold checkCollision, directions; cbn [fold_left].
  rewrite !checkCollision_probe_pushback, !pushbackFrom_penetration.
  rewrite (penetration_wall_Z c _ (mkVector3 0 0 1)), (penetration_wall_Z c _ (mkVector3 0 0 (-1)))
    by reflexivity; cbn; lra.
Qed.

Lemma checkCollision_wall_idempotent (c : R) (pos : Vector3) :
  checkCollision (wallAt c) (checkCollision (wallAt c) pos)
  = checkCollision (wallAt c) pos.
Proof.
  apply vector3_eq.
  - rewrite (checkCollision_wall_x c (checkCollision (wallAt c) pos)).
    rewrite (checkCollision_wall_x c pos).
    destruct (Rle_dec 0 (c - x pos)); [destruct (Rle_dec (c - x pos) 0.3)|
                                       destruct (Rle_dec (x pos - c) 0.3)];
      repeat match goal with |- context [Rle_dec ?a ?b] => destruct (Rle_dec a b) end; lra.
  - apply fold_probes_keep_y, directions_horizontal.
  - apply checkCollision_wall_z.
Qed.

(** X11: against a single wall x = c the resolver leaves the position at
    least the collision radius from the wall: a position farther than the
    radius is unchanged, one within it is moved to exactly the radius on the
    side it is on (the wall side x <= c is pushed to c - 0.3, the other to
    c + 0.3); y and z never change, and resolving again changes nothing. *)
Theorem checkCollision_single_wall (c : R) (pos : Vector3) :
  let pos' := checkCollision (wallAt c) pos in
  0.3 <= Rabs (x pos' - c)
  /\ y pos' = y pos
  /\ z pos' = z pos
  /\ (0.3 < Rabs (x pos - c) -> pos' = pos)
  /\ (Rabs (x pos - c) <= 0.3 -> x pos <= c -> x pos' = c - 0.3)
  /\ (Rabs (x pos - c) <= 0.3 -> c < x pos -> x pos' = c + 0.3)
  /\ checkCollision (wallAt c) pos' = pos'.
Proof.
  cbv zeta.
  assert (Hy : y (checkCollision (wallAt c) pos) = y pos)
    by apply fold_probes_keep_y, directions_horizontal.
  assert (Hz : z (checkCollision (wallAt c) pos) = z pos) by apply checkCollision_wall_z.
  pose proof (checkCollision_wall_x c pos) as Hx.
  split; [|split; [exact Hy|split; [exact Hz|split; [|split; [|split;
    [|apply checkCollision_wall_idempotent]]]]]].
  - rewrite Hx.
    destruct (Rle_dec 0 (c - x pos)); [destruct (Rle_dec (c - x pos) 0.3)|
                                       destruct (Rle_dec (x pos - c) 0.3)];
      unfold Rabs; destruct (Rcase_abs _); lra.
  - intros Hfar; apply vector3_eq; [|exact Hy|exact Hz].
    rewrite Hx; revert Hfar; unfold Rabs; destruct (Rcase_abs _); intros Hfar;
    destruct (Rle_dec 0 (c - x pos)); [destruct (Rle_dec (c - x pos) 0.3)|
                                       destruct (Rle_dec (x pos - c) 0.3) | destruct (Rle_dec (c - x pos) 0.3)|
                                       destruct (Rle_dec (x pos - c) 0.3)]; lra.
  - intros Hnear Hside; rewrite Hx; revert Hnear; unfold Rabs; destruct (Rcase_abs _); intros Hnear;
    destruct (Rle_dec 0 (c - x pos)); [destruct (Rle_dec (c - x pos) 0.3)|
                                       destruct (Rle_dec (x pos - c) 0.3) | destruct (Rle_dec (c - x pos) 0.3)|
                                       destruct (Rle_dec (x pos - c) 0.3)]; lra.
  - intros Hnear Hside; rewrite Hx; revert Hnear; unfold Rabs; destruct (Rcase_abs _); intros Hnear;
    destruct (Rle_dec 0 (c - x pos)); [destruct (Rle_dec (c - x pos) 0.3)|
                                       destruct (Rle_dec (x pos - c) 0.3) | destruct (Rle_dec (c - x pos) 0.3)|
                                       destruct (Rle_dec (x pos - c) 0.3)]; lra.
Qed.

Lemma checkCollision_single_wall_inside :
  x (checkCollision (wallAt 1) (mkVector3 0.9 0 0)) = 1 - 0.3.
Proof.
  apply (proj1 (proj2 (proj2 (proj2 (proj2 (checkCollision_single_wall 1 (mkVector3 0.9 0 0)))))));
    cbn; [unfold Rabs; destruct (Rcase_abs _); lra | lra].
Defined.

(** ** Placement and camera *)



Lemma camera_ray_lengthSq_upper (p : Player.t) :
  lengthSq (sub (desiredCameraPos p) (playerHead p)) <= 25.
Proof.
  rewrite camera_ray_vector; unfold lengthSq; cbn.
  pose proof (sin2_cos2 (Player.rotation p)) as H; unfold Rsqr in H.
  pose proof (SIN_bound (Player.pitch p)) as [Hlo Hhi].
  replace (sin (Player.rotation p) * 3 * (sin (Player.rotation p) * 3)
           + (1 + sin (Player.pitch p) * 3) * (1 + sin (Player.pitch p) * 3)
           + cos (Player.rotation p) * 3 * (cos (Player.rotation p) * 3))
    with (9 * (sin (Player.rotation p) * sin (Player.rotation p)
               + cos (Player.rotation p) * cos (Player.rotation p))
          + (1 + sin (Player.pitch p) * 3) * (1 + sin (Player.pitch p) * 3)) by ring.
  rewrite H; nra.
Qed.

Lemma cameraRayDistance_lengthSq (p : Player.t) :
  cameraRayDistance p = sqrt (lengthSq (sub (desiredCameraPos p) (playerHead p))).
Proof.
  unfold cameraRayDistance, distanceTo; f_equal.
  unfold distanceToSquared, lengthSq; cbn; ring.
Qed.

Lemma cameraRayDistance_bounds (p : Player.t) : 3 <= cameraRayDistance p <= 5.
Proof.
  rewrite cameraRayDistance_lengthSq.
  pose proof (camera_ray_lengthSq p) as Hlo.
  pose proof (camera_ray_lengthSq_upper p) as Hhi.
  split.
  - replace 3 with (sqrt (3 * 3)) by (apply sqrt_square; lra).
    apply sqrt_le_1; lra.
  - replace 5 with (sqrt (5 * 5)) by (apply sqrt_square; lra).
    apply sqrt_le_1; lra.
Qed.

(** X13: the camera stays within reach of the head.  The line of sight to
    the desired position is between 3 and 5 long for every yaw and pitch;
    when the hits reported lie within the ray's bound, the camera is placed
    no farther from the head than the desired position, and exactly there
    when nothing is hit; the placement does not depend on where the camera
    was before. *)
Theorem camera_stays_within_reach (q : RayQuery) (w : World) :
  snoopy w = true ->
  (forall hit, In hit (cameraIntersects q (player w)) ->
               0 <= distance hit <= cameraRayDistance (player w)) ->
  let head := playerHead (player w) in
  let cam := camera_position (updateCamera q (w)) in
  distanceTo head cam <= cameraRayDistance (player w)
  /\ 3 <= cameraRayDistance (player w) <= 5
  /\ (cameraIntersects q (player w) = [] -> distanceTo head cam = cameraRayDistance (player w))
  /\ (forall c, camera_position (updateCamera q (set_camera_position w c)) = cam).
Proof.
  intros Hs Hq; cbv zeta.
  pose proof (cameraRayDistance_bounds (player w)) as Hb.
  assert (Hlast : forall c, camera_position (updateCamera q (set_camera_position w c))
                            = camera_position (updateCamera q w)).
  { intros c; unfold updateCamera; cbn [snoopy set_camera_position player].
    rewrite Hs; cbn [negb]; cbv zeta.
    destruct (cameraIntersects q (player w)) as [|hit rest]; [reflexivity|].
    destruct (JS.gt _ _); reflexivity. }
  assert (Hnone : cameraIntersects q (player w) = [] ->
                  distanceTo (playerHead (player w)) (camera_position (updateCamera q w))
                  = cameraRayDistance (player w)).
  { intros Hn; unfold updateCamera; rewrite Hs; cbn [negb]; cbv zeta.
    rewrite Hn; reflexivity. }
  split; [|split; [exact Hb|split; [exact Hnone|exact Hlast]]].
  destruct (cameraIntersects q (player w)) as [|hit rest] eqn:Hhits.
  - rewrite (Hnone eq_refl); lra.
  - specialize (Hq hit (or_introl eq_refl)).
    unfold updateCamera; rewrite Hs; cbn [negb]; cbv zeta; rewrite Hhits.
    destruct (Rlt_le_dec 0.5 (distance hit - 0.2)) as [H|H].
    + rewrite JS_gt_true by exact H; cbn [camera_position set_camera_position].
      rewrite distanceTo_along; [lra | apply cameraDirection_unit | lra].
    + rewrite JS_gt_false by exact H; cbn [camera_position set_camera_position].
      rewrite distanceTo_self; lra.
Qed.

Lemma camera_stays_within_reach_wall :
  distanceTo (playerHead (player atOrigin))
             (camera_position (updateCamera Scene.wallBehind atOrigin))
  <= cameraRayDistance (player atOrigin).
Proof.
  apply (camera_stays_within_reach Scene.wallBehind atOrigin eq_refl).
  intros hit Hin.
  destruct cameraIntersects_wallBehind as (h & Hh & Hd).
  change (player atOrigin) with Player.initial in Hin |- *.
  rewrite Hh in Hin; destruct Hin as [<-|[]].
  rewrite Hd, cameraRayDistance_initial.
  pose proof sqrt_10_bounds; lra.
Defined.

(** ** Integration and the moving flag *)

(** X14: the step integrates with the velocity it has just updated.  The
    tentative position is the position plus delta times the new horizontal
    velocity; vertically, a jump from the ground moves by
    (12 - 40 delta) delta, a grounded step without jump by the unchanged
    vertical velocity times delta (no gravity), and an airborne step by
    (vy - 40 delta) delta. *)
Theorem tentative_position_integrates (delta : R) (w : World) :
  let pos := Player.position (player w) in
  let v := Player.velocity (fst (updateVelocity (keys w) (player w))) in
  let vy := y (Player.velocity (player w)) in
  let t := tentativePosition delta w in
  x t = x pos + x v * delta
  /\ z t = z pos + z v * delta
  /\ (Keys.jump (keys w) = true -> Player.isGrounded (player w) = true ->
      y t = y pos + (CONFIG.jumpForce - CONFIG.gravity * delta) * delta)
  /\ (Keys.jump (keys w) = false -> Player.isGrounded (player w) = true ->
      y t = y pos + vy * delta)
  /\ (Player.isGrounded (player w) = false ->
      y t = y pos + (vy - CONFIG.gravity * delta) * delta).
Proof.
  cbv zeta.
  destruct (playerBeforeMove_horizontal delta w) as (Hx & Hz & Hpos).
  unfold tentativePosition, integrate; cbn [x y z]; rewrite Hx, Hz, Hpos.
  split; [reflexivity|split; [reflexivity|]].
  unfold playerBeforeMove.
  set (w0 := set_player w (fst (updateVelocity (keys w) (player w)))).
  assert (Hg0 : Player.isGrounded (player w0) = Player.isGrounded (player w)).
  { subst w0; cbn [player set_player].
    destruct (updateVelocity_frame (keys w) (player w)) as (_ & _ & -> & _); reflexivity. }
  assert (Hv0 : y (Player.velocity (player w0)) = y (Player.velocity (player w))).
  { subst w0; cbn [player set_player].
    destruct (updateVelocity_frame (keys w) (player w)) as (_ & _ & _ & _ & ->); reflexivity. }
  assert (Hk0 : keys w0 = keys w) by reflexivity.
  split; [|split].
  - intros Hj Hg.
    destruct (updateJump_impulse w0) as (Hvy & Hair & _); [rewrite Hk0; exact Hj | congruence |].
    unfold applyGravity; rewrite Hair; cbn; rewrite Hvy; reflexivity.
  - intros Hj Hg.
    rewrite updateJump_idle by (rewrite Hk0, Hj; reflexivity).
    unfold applyGravity; rewrite Hg0, Hg; cbn [negb]; cbv iota; rewrite Hv0; reflexivity.
  - intros Hg.
    rewrite updateJump_idle by (rewrite Hg0, Hg; apply andb_false_r).
    unfold applyGravity; rewrite Hg0, Hg; cbn [negb]; cbv iota zeta;
      cbn [Player.velocity Player.set_velocity set_y y]; rewrite Hv0; reflexivity.
Qed.

(** X15: after a step the moving flag tells whether the keys give a net
    direction (W and S differ, or A and D differ), whatever the geometry
    and the motion: it is set while pushing against a wall and clear while
    sliding to a stop. *)
Theorem moving_flag_reflects_input (q : RayQuery) (delta : R) (w : World) :
  Player.isMoving (player (updatePlayer q delta w))
  = negb (Bool.eqb (Keys.forward (keys w)) (Keys.backward (keys w))
          && Bool.eqb (Keys.left (keys w)) (Keys.right (keys w))).
Proof.
  rewrite updatePlayer_unfold; cbv zeta; cbn [player set_player].
  set (w1 := updateJump (set_player w (fst (updateVelocity (keys w) (player w))))).
  destruct (preventFalling_frame (moveAndGround q delta (applyGravity delta (player w1))))
    as (_ & _ & -> & _).
  destruct (moveAndGround_frame q delta (applyGravity delta (player w1)))
    as (_ & _ & -> & _).
  destruct (applyGravity_frame delta (player w1)) as (_ & _ & -> & _).
  subst w1.
  destruct (updateJump_frame (set_player w (fst (updateVelocity (keys w) (player w)))))
    as (_ & _ & -> & _).
  cbn [player set_player].
  destruct (noNetInput_dec (keys w)) as [Hno|Hmove].
  - rewrite (updateVelocity_decelerates _ _ Hno); cbn.
    destruct Hno as [-> ->]; rewrite !eqb_reflx; reflexivity.
  - rewrite (updateVelocity_moving _ _ Hmove); cbn.
    destruct (Bool.eqb (Keys.forward (keys w)) (Keys.backward (keys w))) eqn:H1;
      [|reflexivity].
    destruct (Bool.eqb (Keys.left (keys w)) (Keys.right (keys w))) eqn:H2;
      [|reflexivity].
    exfalso; apply Hmove; split; apply eqb_prop; assumption.
Qed.

Lemma tentative_position_integrates_jump :
  y (tentativePosition 0.016 standing)
  = y (Player.position (player standing))
    + (CONFIG.jumpForce - CONFIG.gravity * 0.016) * 0.016.
Proof.
  exact (proj1 (proj2 (proj2 (tentative_position_integrates 0.016 standing)))
               eq_refl eq_refl).
Defined.

(** ** The jump key, and a corner *)

Lemma checkGround_hasJumped (q : RayQuery) (p : Player.t) :
  Player.hasJumped (checkGround q p) = Player.hasJumped p.
Proof.
  unfold checkGround; cbv zeta.
  destruct (q _ _ _) as [|hit rest];
    repeat match goal with |- context [if ?c then _ else _] => destruct c end;
    reflexivity.
Qed.

Lemma updatePlayer_hasJumped (q : RayQuery) (delta : R) (w : World) :
  Player.hasJumped (player (updatePlayer q delta w)) = Player.hasJumped (player w).
Proof.
  rewrite updatePlayer_unfold; cbv zeta; cbn [player set_player].
  unfold preventFalling, moveAndGround.
  destruct (JS.lt _ _); cbn [Player.hasJumped Player.set_velocity Player.set_position];
    rewrite checkGround_hasJumped; cbn [Player.hasJumped Player.set_position];
    unfold applyGravity, updateJump, updateVelocity; cbv zeta;
    repeat match goal with |- context [if ?c then _ else _] => destruct c end;
    reflexivity.
Qed.

Lemma handle_hasJumped (q : RayQuery) (w : World) (e : Event) :
  Player.hasJumped (player (handle q w e)) = Player.hasJumped (player w).
Proof.
  destruct e as [c|c|locked mx my|locked clockDelta]; cbn [handle player set_keys set_player].
  - reflexivity.
  - reflexivity.
  - unfold mousemove; destruct (negb locked); reflexivity.
  - destruct (animate_unfold q locked clockDelta w) as [-> _].
    destruct (snoopy w && locked); [apply updatePlayer_hasJumped | reflexivity].
Qed.

(** X16: no handler and no step ever writes [hasJumped]; and a key-down of
    Space, first press and auto-repeat alike, arms the jump whenever the
    loaded player is grounded: the next locked frame enters the jump block,
    whether or not the key was released since the last jump. *)
Theorem jump_rearms_on_any_keydown (q : RayQuery) (w : World) :
  (forall events,
     Player.hasJumped (player (run q w events)) = Player.hasJumped (player w))
  /\ (snoopy w = true ->
      Player.isGrounded (player w) = true ->
      forall clockDelta,
        jumpsAt (handle q w (KeyDown Space)) (Frame true clockDelta) = true).
Proof.
  split.
  - intros events; revert w.
    induction events as [|e events IH]; intros w; cbn [run fold_left]; [reflexivity|].
    fold (run q (handle q w e) events); rewrite IH; apply handle_hasJumped.
  - intros Hs Hg clockDelta; cbn; rewrite Hs, Hg; reflexivity.
Qed.

Lemma jump_rearms_on_any_keydown_grounded :
  jumpsAt (handle Scene.floor atOrigin (KeyDown Space)) (Frame true 0.016) = true.
Proof.
  exact (proj2 (jump_rearms_on_any_keydown Scene.floor atOrigin) eq_refl eq_refl 0.016).
Defined.

Lemma hitPlane_parallel (origin dir : Vector3) (far : Far) (pl : Scene.Plane) :
  Scene.coord (Scene.axis pl) dir = 0 -> Scene.hitPlane origin dir far pl = None.
Proof.
  intros H; unfold Scene.hitPlane.
  destruct (Req_dec_T _ 0); [reflexivity | contradiction].
Qed.

Lemma cornerAt_alongX (c d : R) (origin dir : Vector3) (far : Far) :
  z dir = 0 -> cornerAt c d origin dir far = wallAt c origin dir far.
Proof.
  intros Hz; unfold cornerAt, wallAt, Scene.intersectPlanes; cbn [Scene.hits].
  rewrite (hitPlane_parallel origin dir far (Scene.mkPlane Scene.AxisZ d)) by exact Hz.
  destruct (Scene.hitPlane origin dir far _); reflexivity.
Qed.

Lemma cornerAt_alongZ (c d : R) (origin dir : Vector3) (far : Far) :
  x dir = 0 ->
  cornerAt c d origin dir far
  = Scene.intersectPlanes [Scene.mkPlane Scene.AxisZ d] origin dir far.
Proof.
  intros Hx; unfold cornerAt, Scene.intersectPlanes; cbn [Scene.hits].
  rewrite (hitPlane_parallel origin dir far (Scene.mkPlane Scene.AxisX c)) by exact Hx.
  reflexivity.
Qed.

Lemma penetration_zwall_plusZ (d : R) (pos : Vector3) :
  penetration (Scene.intersectPlanes [Scene.mkPlane Scene.AxisZ d]) pos (mkVector3 0 0 1)
  = if Rle_dec 0 (d - z pos) then if Rle_dec (d - z pos) 0.3 then 0.3 - (d - z pos) else 0
    else 0.
Proof.
  unfold penetration, Scene.intersectPlanes; cbn [Scene.hits].
  unfold Scene.hitPlane; cbn [Scene.coord Scene.axis Scene.offset Scene.within z].
  destruct (Req_dec_T 1 0); [lra|].
  unfold JS.le.
  destruct (Rle_dec 0 ((d - z pos) / 1)), (Rle_dec ((d - z pos) / 1) 0.3),
           (Rle_dec 0 (d - z pos)); try lra;
    try destruct (Rle_dec (d - z pos) 0.3); cbn; lra.
Qed.

Lemma penetration_zwall_minusZ (d : R) (pos : Vector3) :
  penetration (Scene.intersectPlanes [Scene.mkPlane Scene.AxisZ d]) pos (mkVector3 0 0 (-1))
  = if Rle_dec 0 (z pos - d) then if Rle_dec (z pos - d) 0.3 then 0.3 - (z pos - d) else 0
    else 0.
Proof.
  unfold penetration, Scene.intersectPlanes; cbn [Scene.hits].
  unfold Scene.hitPlane; cbn [Scene.coord Scene.axis Scene.offset Scene.within z].
  destruct (Req_dec_T (-1) 0); [lra|].
  unfold JS.le.
  destruct (Rle_dec 0 ((d - z pos) / -1)), (Rle_dec ((d - z pos) / -1) 0.3),
           (Rle_dec 0 (z pos - d)); try lra;
    try destruct (Rle_dec (z pos - d) 0.3); cbn; lra.
Qed.

Lemma penetration_corner (c d : R) (pos : Vector3) :
  penetration (cornerAt c d) pos (mkVector3 1 0 0)
  = penetration (wallAt c) pos (mkVector3 1 0 0)
  /\ penetration (cornerAt c d) pos (mkVector3 (-1) 0 0)
     = penetration (wallAt c) pos (mkVector3 (-1) 0 0)
  /\ penetration (cornerAt c d) pos (mkVector3 0 0 1)
     = penetration (Scene.intersectPlanes [Scene.mkPlane Scene.AxisZ d]) pos (mkVector3 0 0 1)
  /\ penetration (cornerAt c d) pos (mkVector3 0 0 (-1))
     = penetration (Scene.intersectPlanes [Scene.mkPlane Scene.AxisZ d]) pos
                   (mkVector3 0 0 (-1)).
Proof.
  unfold penetration.
  rewrite !cornerAt_alongX by reflexivity.
  rewrite !cornerAt_alongZ by reflexivity.
  repeat split; reflexivity.
Qed.

(** X17: in a corner made of the walls x = c and z = d the resolver
    corrects both axes in one call, each as it would against its wall alone:
    x and z end at least the radius from their wall, a coordinate within the
    radius being moved to exactly the radius on its side; y is unchanged. *)
Theorem checkCollision_corner (c d : R) (pos : Vector3) :
  let pos' := checkCollision (cornerAt c d) pos in
  x pos' = pushedFrom c (x pos)
  /\ z pos' = pushedFrom d (z pos)
  /\ y pos' = y pos
  /\ 0.3 <= Rabs (x pos' - c)
  /\ 0.3 <= Rabs (z pos' - d)
  /\ x pos' = x (checkCollision (wallAt c) pos).
Proof.
  cbv zeta.
  assert (Hx : x (checkCollision (cornerAt c d) pos) = pushedFrom c (x pos)).
  { unfold checkCollision, directions; cbn [fold_left].
    rewrite !checkCollision_probe_pushback, !pushbackFrom_penetration.
    cbn [x add multiplyScalar].
    destruct (penetration_corner c d pos) as (-> & _).
    match goal with |- context [penetration _ ?p (mkVector3 (-1) 0 0)] =>
      destruct (penetration_corner c d p) as (_ & -> & _) end.
    rewrite penetration_wall_plusX, penetration_wall_minusX; cbn [x add multiplyScalar].
    unfold pushedFrom.
    destruct (Rle_dec 0 (c - x pos)); [destruct (Rle_dec (c - x pos) 0.3)|];
      repeat match goal with |- context [Rle_dec ?a ?b] => destruct (Rle_dec a b) end; lra. }
  assert (Hz : z (checkCollision (cornerAt c d) pos) = pushedFrom d (z pos)).
  { unfold checkCollision, directions; cbn [fold_left].
    rewrite !checkCollision_probe_pushback, !pushbackFrom_penetration.
    cbn [z add multiplyScalar].
    match goal with |- context [penetration _ ?p (mkVector3 0 0 1)] =>
      destruct (penetration_corner c d p) as (_ & _ & -> & _) end.
    match goal with |- context [penetration _ ?p (mkVector3 0 0 (-1))] =>
      destruct (penetration_corner c d p) as (_ & _ & _ & ->) end.
    rewrite penetration_zwall_plusZ, penetration_zwall_minusZ; cbn [z add multiplyScalar].
    unfold pushedFrom.
    destruct (Rle_dec 0 (d - z pos)); [destruct (Rle_dec (d - z pos) 0.3)|];
      repeat match goal with |- context [Rle_dec ?a ?b] => destruct (Rle_dec a b) end; lra. }
  assert (Hbound : forall c a, 0.3 <= Rabs (pushedFrom c a - c)).
  { intros c0 a; unfold pushedFrom.
    destruct (Rle_dec 0 (c0 - a)); [destruct (Rle_dec (c0 - a) 0.3)|
                                    destruct (Rle_dec (a - c0) 0.3)];
      unfold Rabs; destruct (Rcase_abs _); lra. }
  split; [exact Hx|split; [exact Hz|split; [|split; [|split]]]].
  - apply fold_probes_keep_y, directions_horizontal.
  - rewrite Hx; apply Hbound.
  - rewrite Hz; apply Hbound.
  - rewrite Hx, checkCollision_wall_x; reflexivity.
Qed.

Lemma checkCollision_corner_inside :
  x (checkCollision (cornerAt 1 1) (mkVector3 0.9 0 0.8)) = pushedFrom 1 0.9.
Proof.
  exact (proj1 (checkCollision_corner 1 1 (mkVector3 0.9 0 0.8))).
Defined.
